(** * Myelin paper tracker: a shallow embedding of [server.py]

    The development follows the layout of the server:
    - [Py]: the Python values the handlers manipulate (decoded JSON,
      truthiness, [int(...)], [str.strip], exceptions);
    - the project store ([Task], [ProjectState]);
    - [update_task] (PATCH /api/task/<id>);
    - [auto_adjust] (POST /api/auto-adjust);
    - the [task_update] loop of [chat] and [chat] itself (POST /api/chat);
    - the properties of these handlers, each with the sample data it is
      tried on.

    Handlers are written in explicit state-passing style: a handler takes
    the store that [load_project_data] returns and gives back the store that
    is on disk when the request ends, together with the response or the
    exception that leaves the handler. *)

From Stdlib Require Import ZArith QArith List String Ascii Bool Lia.
From Stdlib Require Import DecimalString Permutation.
Import ListNotations.

Local Open Scope string_scope.
Local Open Scope list_scope.
Local Open Scope Z_scope.

Set Implicit Arguments.

(* ================================================================== *)
(** ** Python values *)
(* ================================================================== *)

Module Py.

(** Exceptions that the modelled code can raise. [ServiceError] stands for
    whatever the Anthropic client raises. [JSONDecodeError] is the one
    exception the loop of [chat] catches; [json.loads] also raises a plain
    [ValueError] (an integer of more digits than the interpreter converts)
    and [RecursionError] (nesting too deep), which are not caught there. *)
Inductive exn : Type :=
| AttributeError
| TypeError
| ValueError
| OverflowError
| UnboundLocalError
| JSONDecodeError
| RecursionError
| ServiceError (msg : string).

Inductive result (A : Type) : Type :=
| Ok (a : A)
| Raise (e : exn).
Arguments Ok {A} a.
Arguments Raise {A} e.

Definition bind {A B} (r : result A) (k : A -> result B) : result B :=
  match r with
  | Ok a => k a
  | Raise e => Raise e
  end.

(** A Python [float]: every finite binary64 value is a rational, so a
    rational carries it exactly; the two infinities and NaN are apart. *)
Inductive pyfloat : Type :=
| FFinite (q : Q)
| FInf (negative : bool)
| FNaN.

(** What [json.loads] returns. An object is kept as the list of its items;
    [get] reads the first item of a key, which is the only one in a [dict]. *)
#[warnings="-register-all"]
Inductive json : Type :=
| JNull
| JBool (b : bool)
| JInt (z : Z)
| JFloat (f : pyfloat)
| JStr (s : string)
| JList (l : list json)
| JDict (items : list (string * json)).

Fixpoint lookup (k : string) (items : list (string * json)) : option json :=
  match items with
  | [] => None
  | (k', v) :: rest => if String.eqb k' k then Some v else lookup k rest
  end.

(** [d.get(k, default)] on a decoded value: only a [dict] has [get]. *)
Definition get (d : json) (k : string) (default : json) : result json :=
  match d with
  | JDict items =>
      Ok (match lookup k items with Some v => v | None => default end)
  | _ => Raise AttributeError
  end.

(** [bool(v)], the test of [if v:]. *)
Definition truthy (v : json) : bool :=
  match v with
  | JNull => false
  | JBool b => b
  | JInt z => negb (z =? 0)
  | JFloat (FFinite q) => negb (Qnum q =? 0)
  | JFloat _ => true
  | JStr s => negb (String.eqb s "")
  | JList l => match l with [] => false | _ => true end
  | JDict items => match items with [] => false | _ => true end
  end.

(** [v == s] for a [str] literal [s]: only an equal [str] is equal to it. *)
Definition eq_str (v : json) (s : string) : bool :=
  match v with
  | JStr s' => String.eqb s' s
  | _ => false
  end.

(** *** Characters *)

Definition code (c : ascii) : nat := nat_of_ascii c.

(** [str.isspace] on one character, which is also the class [\s] of [re] on
    [str] patterns. Texts are sequences of 8-bit code points here. *)
Definition is_space (c : ascii) : bool :=
  let n := code c in
  ((9 <=? n) && (n <=? 13) || (28 <=? n) && (n <=? 32)
   || (n =? 133) || (n =? 160))%nat.

Definition is_digit (c : ascii) : bool :=
  let n := code c in ((48 <=? n) && (n <=? 57))%nat.

Definition digit_value (c : ascii) : Z := Z.of_nat (code c) - 48.

Fixpoint lstrip (s : string) : string :=
  match s with
  | String c s' => if is_space c then lstrip s' else s
  | EmptyString => EmptyString
  end.

Fixpoint string_rev_onto (s acc : string) : string :=
  match s with
  | EmptyString => acc
  | String c s' => string_rev_onto s' (String c acc)
  end.

Definition string_rev (s : string) : string := string_rev_onto s "".

Definition rstrip (s : string) : string := string_rev (lstrip (string_rev s)).

(** [s.strip()] *)
Definition strip (s : string) : string := rstrip (lstrip s).

(** *** [int(...)] *)

(** Digits of a decimal literal, underscores allowed between two digits;
    [prev] tells whether the previous character was a digit. The result is
    the value and the number of digits read. *)
Fixpoint digits (s : string) (prev : bool) (acc : Z) (n : nat)
  : option (Z * nat) :=
  match s with
  | EmptyString => if prev then Some (acc, n) else None
  | String c s' =>
      if is_digit c then digits s' true (10 * acc + digit_value c) (S n)
      else if (Ascii.eqb c "_") && prev then digits s' false acc n
      else None
  end.

(** CPython's default [sys.int_max_str_digits]. *)
Definition int_max_str_digits : nat := 4300.

Definition unsigned_literal (s : string) : option Z :=
  match digits s false 0 0%nat with
  | Some (z, n) => if (n <=? int_max_str_digits)%nat then Some z else None
  | None => None
  end.

(** The white space [int] skips around a literal: below 127 only the
    characters of the C locale (tab to carriage return, and space), so the
    separators 28 to 31 that [str.strip] removes are not skipped here. *)
Definition is_int_space (c : ascii) : bool :=
  let n := code c in
  ((9 <=? n) && (n <=? 13) || (n =? 32) || (n =? 133) || (n =? 160))%nat.

Fixpoint lstrip_int (s : string) : string :=
  match s with
  | String c s' => if is_int_space c then lstrip_int s' else s
  | EmptyString => EmptyString
  end.

Definition strip_int (s : string) : string :=
  string_rev (lstrip_int (string_rev (lstrip_int s))).

(** [int(s)] for a [str]: surrounding white space, an optional sign, a
    decimal literal. *)
Definition int_of_string (s : string) : option Z :=
  match strip_int s with
  | String "-" s' => option_map Z.opp (unsigned_literal s')
  | String "+" s' => unsigned_literal s'
  | s' => unsigned_literal s'
  end.

(** [int(v)] *)
Definition int (v : json) : result Z :=
  match v with
  | JNull => Raise TypeError
  | JBool b => Ok (if b then 1 else 0)
  | JInt z => Ok z
  | JFloat (FFinite q) => Ok (Z.quot (Qnum q) (Z.pos (Qden q)))
  | JFloat (FInf _) => Raise OverflowError
  | JFloat FNaN => Raise ValueError
  | JStr s =>
      match int_of_string s with
      | Some z => Ok z
      | None => Raise ValueError
      end
  | JList _ => Raise TypeError
  | JDict _ => Raise TypeError
  end.

(** [str(z)] for an [int]. *)
Definition str_of_int (z : Z) : string :=
  NilZero.string_of_int (Z.to_int z).

End Py.
Import Py.

Notation "x <- r ;; k" := (bind r (fun x => k))
  (at level 61, r at next level, right associativity).

(* ================================================================== *)
(** ** The project store *)
(* ================================================================== *)

(** A task of [project_data.json], for the stores that follow the data
    model: [id] is a [str], [week] an [int] and [completed] a [bool], as
    [get_default_data] and the loop of [chat] write them. The other fields
    hold what a directive put there, which can be any decoded value.
    [update_task] merges the body of a PATCH as it comes, so a request can
    store any value in any field; a store in which [id], [week] or
    [completed] has another type is outside this model (there [auto_adjust]
    raises [TypeError] when it compares the week). *)
Record Task : Type := mkTask {
  id : string;
  title : json;
  week : Z;
  completed : bool;
  priority : json;
  figure : json;
  notes : json
}.

Record Figure : Type := mkFigure {
  fig_id : Z;
  fig_title : string;
  fig_status : string
}.

(** A reading of [datetime.now()]: the proleptic ordinal of the local date
    and [int(now.timestamp())]. *)
Record instant : Type := mkInstant {
  ordinal : Z;
  seconds : Z
}.

Record ChatTurn : Type := mkTurn {
  role : string;
  content : json;
  timestamp : instant
}.

(** The document [load_project_data] returns; the two dates are kept as the
    ordinals [datetime.strptime] gives them. *)
Record ProjectState : Type := mkState {
  project_start : Z;
  deadline : Z;
  tasks : list Task;
  figures : list Figure;
  results : list json;
  chat_history : list ChatTurn
}.

Definition set_tasks (data : ProjectState) (ts : list Task) : ProjectState :=
  mkState data.(project_start) data.(deadline) ts data.(figures)
          data.(results) data.(chat_history).

Definition set_chat_history (data : ProjectState) (h : list ChatTurn)
  : ProjectState :=
  mkState data.(project_start) data.(deadline) data.(tasks) data.(figures)
          data.(results) h.

Definition set_week (t : Task) (w : Z) : Task :=
  mkTask t.(id) t.(title) w t.(completed) t.(priority) t.(figure) t.(notes).

Definition set_completed (t : Task) (b : bool) : Task :=
  mkTask t.(id) t.(title) t.(week) b t.(priority) t.(figure) t.(notes).

(** The two invariants of the task collection. *)
Definition unique_ids (ts : list Task) : Prop := NoDup (map id ts).

Definition TOTAL_WEEKS : Z := 8.

Definition weeks_in_range (ts : list Task) : Prop :=
  forall t, In t ts -> 1 <= t.(week) <= TOTAL_WEEKS.

(* ================================================================== *)
(** ** PATCH /api/task/<task_id> *)
(* ================================================================== *)

(** The body of the request, a partial task: the fields it carries, for
    the bodies that are objects and give [id], [week] and [completed] the
    types of the data model. *)
Record TaskPatch : Type := mkPatch {
  p_id : option string;
  p_title : option json;
  p_week : option Z;
  p_completed : option bool;
  p_priority : option json;
  p_figure : option json;
  p_notes : option json
}.

Definition or_else {A} (o : option A) (a : A) : A :=
  match o with Some x => x | None => a end.

(** [task.update(updates)] *)
Definition task_update (t : Task) (u : TaskPatch) : Task :=
  mkTask (or_else u.(p_id) t.(id))
         (or_else u.(p_title) t.(title))
         (or_else u.(p_week) t.(week))
         (or_else u.(p_completed) t.(completed))
         (or_else u.(p_priority) t.(priority))
         (or_else u.(p_figure) t.(figure))
         (or_else u.(p_notes) t.(notes)).

(** The [for task in data['tasks']] loop of [update_task]. [bound] is what
    the variable [task] holds before the iteration ([None]: not bound yet);
    the result is the task list and what [task] holds after the loop. *)
Fixpoint update_loop (task_id : string) (u : TaskPatch) (ts : list Task)
    (bound : option Task) : list Task * option Task :=
  match ts with
  | [] => ([], bound)
  | t :: rest =>
      if String.eqb t.(id) task_id
      then (task_update t u :: rest, Some (task_update t u))
      else let (rest', b) := update_loop task_id u rest (Some t) in
           (t :: rest', b)
  end.

Record UpdateResponse : Type := mkUpdateResponse {
  upd_status : string;
  upd_task : Task
}.

(** [update_task]: the store written by [save_project_data], and the
    response or the exception of the [return] line, which reads [task]. *)
Definition update_task (task_id : string) (updates : TaskPatch)
    (data : ProjectState) : ProjectState * result UpdateResponse :=
  let (ts, bound) := update_loop task_id updates data.(tasks) None in
  (set_tasks data ts,
   match bound with
   | Some t => Ok (mkUpdateResponse "updated" t)
   | None => Raise UnboundLocalError
   end).

(* ================================================================== *)
(** ** POST /api/auto-adjust *)
(* ================================================================== *)

(** [max(1, min(8, (days_passed // 7) + 1))] *)
Definition current_week (days_passed : Z) : Z :=
  Z.max 1 (Z.min 8 (days_passed / 7 + 1)).

(** [priority_order.get(p, 3)]: a list or an object is not hashable. *)
Definition priority_order_get (p : json) : result Z :=
  match p with
  | JList _ | JDict _ => Raise TypeError
  | JStr s =>
      Ok (if String.eqb s "critical" then 0
          else if String.eqb s "high" then 1
          else if String.eqb s "medium" then 2
          else if String.eqb s "low" then 3
          else 3)
  | _ => Ok 3
  end.

(** The sort key [(t['week'], rank)] and its order. *)
Definition key_le (a b : Z * Z) : bool :=
  (fst a <? fst b) || ((fst a =? fst b) && (snd a <=? snd b)).

Fixpoint keys_of (ts : list Task) : result (list (Z * Z * Task)) :=
  match ts with
  | [] => Ok []
  | t :: rest =>
      r <- priority_order_get t.(priority) ;;
      ks <- keys_of rest ;;
      Ok ((t.(week), r, t) :: ks)
  end.

(** [list.sort] is stable: an item goes before the first item of the sorted
    rest whose key is not smaller. *)
Fixpoint insert_keyed (x : Z * Z * Task) (l : list (Z * Z * Task))
  : list (Z * Z * Task) :=
  match l with
  | [] => [x]
  | y :: l' => if key_le (fst x) (fst y) then x :: l else y :: insert_keyed x l'
  end.

Fixpoint sort_keyed (l : list (Z * Z * Task)) : list (Z * Z * Task) :=
  match l with
  | [] => []
  | x :: l' => insert_keyed x (sort_keyed l')
  end.

(** [incomplete.sort(key=...)]: all keys are computed first. *)
Definition sort_incomplete (ts : list Task) : result (list Task) :=
  ks <- keys_of ts ;;
  Ok (map snd (sort_keyed ks)).

(** The inner loop [for t in data['tasks']] for one task of [incomplete]:
    the first task with that id takes the week, and [week] and [count] move
    on; nothing changes when no task has the id. *)
Fixpoint assign_first (tid : string) (tasks_per_week week count : Z)
    (ts : list Task) : list Task * Z * Z :=
  match ts with
  | [] => ([], week, count)
  | t :: rest =>
      if String.eqb t.(id) tid then
        let advance := (count >=? tasks_per_week) && (week <? 8) in
        let week' := if advance then week + 1 else week in
        let count' := if advance then 0 else count in
        (set_week t week' :: rest, week', count' + 1)
      else
        let '(rest', w, c) :=
          assign_first tid tasks_per_week week count rest in
        (t :: rest', w, c)
  end.

(** The outer loop [for task in incomplete]. *)
Fixpoint spread (tasks_per_week : Z) (incomplete ts : list Task)
    (week count : Z) : list Task :=
  match incomplete with
  | [] => ts
  | task :: more =>
      let '(ts', w, c) :=
        assign_first task.(id) tasks_per_week week count ts in
      spread tasks_per_week more ts' w c
  end.

Definition is_overdue (cw : Z) (t : Task) : bool :=
  negb t.(completed) && (t.(week) <? cw).

Definition is_pending (cw : Z) (t : Task) : bool :=
  negb t.(completed) && (t.(week) >=? cw).

(** The overdue tasks are the objects of [data['tasks']]: moving them
    changes the list in place. *)
Definition pull_forward (cw : Z) (ts : list Task) : list Task :=
  map (fun t => if is_overdue cw t then set_week t cw else t) ts.

Definition redistribute (cw : Z) (ts : list Task) : result (list Task) :=
  let incomplete := filter (is_pending cw) ts in
  let weeks_remaining := 8 - cw + 1 in
  if (weeks_remaining >? 0) && (Z.of_nat (List.length incomplete) >? 0) then
    sorted <- sort_incomplete incomplete ;;
    let tasks_per_week :=
      Z.max 3 (Z.of_nat (List.length incomplete) / weeks_remaining) in
    Ok (spread tasks_per_week sorted ts cw 0)
  else Ok ts.

Record AdjustResponse : Type := mkAdjustResponse {
  adj_status : string;
  adj_current_week : Z;
  adj_data : ProjectState
}.

(** [auto_adjust] with [today] the ordinal of [datetime.now()]. An exception
    leaves the handler before [save_project_data]: the store stays. *)
Definition auto_adjust (today : Z) (data : ProjectState)
  : ProjectState * result AdjustResponse :=
  let days_passed := today - data.(project_start) in
  let cw := current_week days_passed in
  match redistribute cw (pull_forward cw data.(tasks)) with
  | Ok ts =>
      let data' := set_tasks data ts in
      (data', Ok (mkAdjustResponse "adjusted" cw data'))
  | Raise e => (data, Raise e)
  end.

(* ================================================================== *)
(** ** POST /api/chat: the [task_update] blocks *)
(* ================================================================== *)

(** *** Finding the blocks

    The pattern is [```task_update\s*\n?(.*?)\n?```] with [re.DOTALL]. After
    the opening marker the greedy [\s*] takes all the white space there is,
    which leaves nothing for the first [\n?]; giving some of it back cannot
    help, since a closing marker is not white space. The lazy group then
    stops at the first position where [\n```] or [```] follows. *)

Definition nl : string := String "010"%char "".
Definition fence : string := "```".
Definition opener : string := "```task_update".

Fixpoint drop (n : nat) (s : string) : string :=
  match n, s with
  | S k, String _ s' => drop k s'
  | _, _ => s
  end.

(** [(.*?)\n?```]: the group and what follows the closing marker. *)
Fixpoint lazy_body (s : string) : option (string * string) :=
  if prefix (nl ++ fence) s then Some ("", drop 4 s)
  else if prefix fence s then Some ("", drop 3 s)
  else match s with
       | EmptyString => None
       | String c s' =>
           match lazy_body s' with
           | Some (g, r) => Some (String c g, r)
           | None => None
           end
       end.

(** A match of the whole pattern at the start of [s]. *)
Definition match_block (s : string) : option (string * string) :=
  if prefix opener s then lazy_body (lstrip (drop 14 s)) else None.

(** [re.findall(pattern, s, re.DOTALL)]: the groups of the matches, left to
    right; [skip] counts the characters of the last match still to pass. *)
Fixpoint findall_from (skip : nat) (s : string) : list string :=
  match s with
  | EmptyString => []
  | String c s' =>
      match skip with
      | S k => findall_from k s'
      | O =>
          match match_block s with
          | Some (g, r) => g :: findall_from (length s - length r - 1) s'
          | None => findall_from 0 s'
          end
      end
  end.

Definition findall (s : string) : list string := findall_from 0 s.

(** [re.sub(pattern, '', s, flags=re.DOTALL)] *)
Fixpoint sub_from (skip : nat) (s : string) : string :=
  match s with
  | EmptyString => EmptyString
  | String c s' =>
      match skip with
      | S k => sub_from k s'
      | O =>
          match match_block s with
          | Some (_, r) => sub_from (length s - length r - 1) s'
          | None => String c (sub_from 0 s')
          end
      end
  end.

Definition sub_blocks (s : string) : string := sub_from 0 s.

(** *** Applying one update *)

(** The lines the loop prints. *)
Inductive Event : Type :=
| Moved (task_id new_week : json)
| Completed (task_id : json)
| Added (title : json)
| Deleted (task_id : json)
| ParseFailed (body : string).

(** What the loop has in hand: the tasks of [data], the list
    [task_updates], the lines printed so far and the number of readings of
    the clock made so far in the request. *)
Record Run : Type := mkRun {
  cur_tasks : list Task;
  task_updates : list json;
  printed : list Event;
  tick : nat
}.

(** The loop of the [move] branch: [None] when no task has the id. *)
Fixpoint move_loop (task_id new_week : json) (ts : list Task)
  : result (option (list Task)) :=
  match ts with
  | [] => Ok None
  | t :: rest =>
      if eq_str task_id t.(id) then
        w <- int new_week ;;
        Ok (Some (set_week t w :: rest))
      else
        r <- move_loop task_id new_week rest ;;
        Ok (option_map (cons t) r)
  end.

(** The loop of the [complete] branch. *)
Fixpoint complete_loop (task_id : json) (ts : list Task)
  : option (list Task) :=
  match ts with
  | [] => None
  | t :: rest =>
      if eq_str task_id t.(id) then Some (set_completed t true :: rest)
      else option_map (cons t) (complete_loop task_id rest)
  end.

Section Apply.

(** The readings of [datetime.now()], in the order the request makes them,
    and the current week computed at the start of [chat]. *)
Variable clock : nat -> instant.
Variable cw : Z.

(** The body of the [try] of the loop after [task_updates.append]. *)
Definition apply_update (update : json) (st : Run) : result Run :=
  action <- get update "action" (JStr "") ;;
  if eq_str action "move" then
    task_id <- get update "task_id" JNull ;;
    new_week <- get update "new_week" JNull ;;
    if truthy task_id && truthy new_week then
      found <- move_loop task_id new_week st.(cur_tasks) ;;
      match found with
      | Some ts =>
          Ok (mkRun ts st.(task_updates)
                    (st.(printed) ++ [Moved task_id new_week]) st.(tick))
      | None => Ok st
      end
    else Ok st
  else if eq_str action "complete" then
    task_id <- get update "task_id" JNull ;;
    if truthy task_id then
      match complete_loop task_id st.(cur_tasks) with
      | Some ts =>
          Ok (mkRun ts st.(task_updates)
                    (st.(printed) ++ [Completed task_id]) st.(tick))
      | None => Ok st
      end
    else Ok st
  else if eq_str action "add" then
    let new_id := ("task-" ++ str_of_int (clock st.(tick)).(seconds))%string in
    t <- get update "title" (JStr "New Task") ;;
    wk <- get update "week" (JInt cw) ;;
    w <- int wk ;;
    p <- get update "priority" (JStr "medium") ;;
    f <- get update "figure" JNull ;;
    n <- get update "reason" (JStr "") ;;
    Ok (mkRun (st.(cur_tasks) ++ [mkTask new_id t w false p f n])
              st.(task_updates) (st.(printed) ++ [Added t])
              (S st.(tick)))
  else if eq_str action "delete" then
    task_id <- get update "task_id" JNull ;;
    if truthy task_id then
      Ok (mkRun (filter (fun t => negb (eq_str task_id t.(id)))
                        st.(cur_tasks))
                st.(task_updates) (st.(printed) ++ [Deleted task_id])
                st.(tick))
    else Ok st
  else Ok st.

(** One turn of [for match in matches]: the candidate is the match and
    what [json.loads] made of the stripped match, a value or an exception.
    The handler of the loop catches [json.JSONDecodeError] and nothing
    else: any other exception of [json.loads] leaves the loop as those of
    the update do. *)
Definition step (candidate : string * result json) (st : Run) : result Run :=
  match snd candidate with
  | Ok update =>
      apply_update update
        (mkRun st.(cur_tasks) (st.(task_updates) ++ [update]) st.(printed)
               st.(tick))
  | Raise JSONDecodeError =>
      Ok (mkRun st.(cur_tasks) st.(task_updates)
                (st.(printed) ++ [ParseFailed (fst candidate)]) st.(tick))
  | Raise e => Raise e
  end.

Fixpoint run_updates (candidates : list (string * result json)) (st : Run)
  : result Run :=
  match candidates with
  | [] => Ok st
  | c :: more => st' <- step c st ;; run_updates more st'
  end.

End Apply.

(* ================================================================== *)
(** ** POST /api/chat: the handler *)
(* ================================================================== *)

(** *** The credential *)

(** [~/.env]: absent, unreadable, or its lines. *)
Inductive DotEnv : Type :=
| NoFile
| Unreadable (e : exn)
| Lines (lines : list string).

Definition is_quote (c : ascii) : bool :=
  Ascii.eqb c "034"%char || Ascii.eqb c "039"%char.

Fixpoint lstrip_quotes (s : string) : string :=
  match s with
  | String c s' => if is_quote c then lstrip_quotes s' else s
  | EmptyString => EmptyString
  end.

(** [s.strip(...)] with the two quote characters. *)
Definition strip_quotes (s : string) : string :=
  string_rev (lstrip_quotes (string_rev (lstrip_quotes s))).

(** [s.split('=', 1)[1]] for a string that holds an [=]. *)
Fixpoint after_equals (s : string) : string :=
  match s with
  | String c s' => if Ascii.eqb c "=" then s' else after_equals s'
  | EmptyString => EmptyString
  end.

(** The [for line in f] loop: the first line that starts with the name. *)
Fixpoint key_of_lines (lines : list string) (api_key : option string)
  : option string :=
  match lines with
  | [] => api_key
  | line :: more =>
      if prefix "ANTHROPIC_API_KEY=" line
      then Some (strip_quotes (after_equals (strip line)))
      else key_of_lines more api_key
  end.

(** [not api_key] *)
Definition no_key (api_key : option string) : bool :=
  match api_key with
  | None => true
  | Some k => String.eqb k ""
  end.

(** What a request finds around it: the environment variable, [~/.env],
    the readings of the clock, and the answer of the model to the messages
    ([client.messages.create(...)] and the text of its first block). *)
Record World : Type := mkWorld {
  environ_key : option string;
  dotenv : DotEnv;
  clock : nat -> instant;
  ask : string -> list (string * json) -> result string
}.

Definition resolve_api_key (w : World) : result (option string) :=
  let api_key := w.(environ_key) in
  if no_key api_key then
    match w.(dotenv) with
    | NoFile => Ok api_key
    | Unreadable e => Raise e
    | Lines lines => Ok (key_of_lines lines api_key)
    end
  else Ok api_key.

(** *** The handler *)

Record ChatResponse : Type := mkChatResponse {
  response : string;
  resp_task_updates : list json;
  error : bool
}.

(** [l[-n:]] *)
Definition last_n {A} (n : nat) (l : list A) : list A :=
  skipn (List.length l - n) l.

Section Chat.

(** Library functions: [json.loads] (the value, or the exception it raises),
    [str(e)] of an exception, and the rendering of the context block that is
    sent to the model (the f-string of [chat]). *)
Variable json_loads : string -> result json.
Variable exn_text : exn -> string.
Variable render_context : Z -> ProjectState -> json -> string.

Variable w : World.

(** Lines 311-367: the matches, decoded and applied in turn. *)
Definition process_reply (cw : Z) (assistant_message : string) (st : Run)
  : result Run :=
  run_updates w.(clock) cw
    (map (fun m => (m, json_loads (strip m))) (findall assistant_message))
    st.

(** The body of the outer [try]: the store to write and the response. A
    [return] before [save_project_data] gives the store back as it was
    loaded. *)
Definition chat_try (cw : Z) (user_message : json)
    (messages : list (string * json)) (data : ProjectState)
  : result (ProjectState * ChatResponse) :=
  api_key <- resolve_api_key w ;;
  if no_key api_key then
    Ok (data,
        mkChatResponse
          "API key not found. Please set ANTHROPIC_API_KEY in your ~/.env file."
          [] true)
  else
    assistant_message <- w.(ask) (or_else api_key "") messages ;;
    let history :=
      data.(chat_history)
      ++ [mkTurn "user" user_message (w.(clock) 1%nat);
          mkTurn "assistant" (JStr assistant_message) (w.(clock) 2%nat)] in
    st <- process_reply cw assistant_message
            (mkRun data.(tasks) [] [] 3%nat) ;;
    Ok (set_chat_history (set_tasks data st.(cur_tasks)) history,
        mkChatResponse (strip (sub_blocks assistant_message))
                       st.(task_updates) false).

(** [chat]: [body] is [request.json]. The store of the result is the one on
    disk after the request. *)
Definition chat (body : json) (data : ProjectState)
  : ProjectState * result ChatResponse :=
  match get body "message" (JStr "") with
  | Raise e => (data, Raise e)
  | Ok user_message =>
      let today := w.(clock) 0%nat in
      let cw := current_week (today.(ordinal) - data.(project_start)) in
      let context := render_context cw data user_message in
      let messages :=
        map (fun m => (m.(role), m.(content))) (last_n 6 data.(chat_history))
        ++ [("user", JStr context)] in
      match chat_try cw user_message messages data with
      | Ok (data', r) => (data', Ok r)
      | Raise e =>
          (data,
           Ok (mkChatResponse
                 ("Error communicating with AI: " ++ exn_text e)%string
                 [] true))
      end
  end.

End Chat.

(* ================================================================== *)
(** ** The default store *)
(* ================================================================== *)

Definition default_task (i t : string) (w : Z) (p : string) (f : json)
    (n : string) : Task :=
  mkTask i (JStr t) w false (JStr p) f (JStr n).

(** [get_default_data]: the project starts on 2026-01-17 (ordinal 739633)
    and ends on 2026-03-17 (ordinal 739692). *)
Definition get_default_data : ProjectState :=
  mkState 739633 739692
    [default_task "mag-quant" "Quantify MAG Western blot (ImageJ)" 1 "high"
       (JInt 2) "";
     default_task "cut-sections" "Cut IHC sections from fixed tissue" 1
       "medium" (JInt 3) "";
     default_task "prep-massspec" "Prepare brain samples for mass spec" 1
       "critical" (JInt 2) "";
     default_task "send-massspec" "Send samples to mass spec core" 1
       "critical" (JInt 2) "BOTTLENECK";
     default_task "olig2-stain" "Olig2 or CC1 IHC staining" 2 "high"
       (JInt 3) "";
     default_task "degenerotag" "DegeneroTag / FluoroJade staining" 2 "high"
       (JInt 3) "";
     default_task "ihc-imaging" "Image all IHC sections" 3 "medium"
       (JInt 3) "";
     default_task "ihc-quant-start" "Begin IHC quantification" 3 "medium"
       (JInt 3) "";
     default_task "recovery-plp" "Western blot: PLP on Recovery tissue" 4
       "high" (JInt 4) "";
     default_task "recovery-mag" "Western blot: MAG on Recovery tissue" 4
       "high" (JInt 4) "";
     default_task "recovery-quant" "Quantify recovery Western blots" 4
       "medium" (JInt 4) "";
     default_task "recovery-stats" "Statistics: Non-SD vs SD vs Recovery" 4
       "medium" (JInt 4) "";
     default_task "ihc-quant-complete" "Complete all IHC quantification" 5
       "high" (JInt 3) "";
     default_task "massspec-analyze" "Analyze mass spec results" 5 "high"
       (JInt 2) "";
     default_task "all-stats" "Statistical analysis on all datasets" 5 "high"
       JNull "";
     default_task "fig1-final" "Finalize Figure 1: EM Phenotype" 6 "high"
       (JInt 1) "";
     default_task "fig2-final" "Finalize Figure 2: Proteins + Lipids" 6
       "high" (JInt 2) "";
     default_task "fig3-final" "Finalize Figure 3: Cellular Response" 7
       "high" (JInt 3) "";
     default_task "fig4-final" "Finalize Figure 4: Recovery Failure" 7 "high"
       (JInt 4) "";
     default_task "write-legends" "Write figure legends" 7 "medium" JNull "";
     default_task "write-manuscript" "Complete manuscript draft" 8 "critical"
       JNull "";
     default_task "coauthor-review" "Circulate to co-authors" 8 "high"
       JNull "";
     default_task "submit" "SUBMIT PAPER" 8 "critical" JNull ""]
    [mkFigure 1 "EM Phenotype" "complete";
     mkFigure 2 "Proteins + Lipids" "in_progress";
     mkFigure 3 "Cellular Response" "not_started";
     mkFigure 4 "Recovery Failure" "partial"]
    [] [].

(** [load_project_data]: [file] is the document in [project_data.json],
    [None] when the file does not exist. *)
Definition load_project_data (file : option ProjectState) : ProjectState :=
  match file with
  | Some data => data
  | None => get_default_data
  end.

(* ================================================================== *)
(** ** POST /api/result *)
(* ================================================================== *)

(** [d[k] = v] on the items of an object: the value of an existing key is
    replaced where it stands, a new key goes to the end. *)
Fixpoint assign (k : string) (v : json) (items : list (string * json))
  : list (string * json) :=
  match items with
  | [] => [(k, v)]
  | (k', v') :: rest =>
      if String.eqb k' k then (k', v) :: rest
      else (k', v') :: assign k v rest
  end.

Definition set_results (data : ProjectState) (rs : list json)
  : ProjectState :=
  mkState data.(project_start) data.(deadline) data.(tasks) data.(figures)
          rs data.(chat_history).

Record LogResponse : Type := mkLogResponse {
  log_status : string;
  log_result_field : json
}.

Section Result.

(** [datetime.isoformat] *)
Variable isoformat : instant -> string.

(** [log_result]: [body] is [request.json], [now] the reading of the clock.
    Only an object supports [result['date'] = ...]; the exception leaves
    the handler before [save_project_data]. *)
Definition log_result (now : instant) (body : json) (data : ProjectState)
  : ProjectState * result LogResponse :=
  match body with
  | JDict items =>
      let result := JDict (assign "date" (JStr (isoformat now)) items) in
      (set_results data (data.(results) ++ [result]),
       Ok (mkLogResponse "logged" result))
  | _ => (data, Raise TypeError)
  end.

End Result.

(* ================================================================== *)
(** ** The messages [chat] sends *)
(* ================================================================== *)

(** The list [messages] of [chat]: the last six stored turns and the
    context block as a user turn. *)
Definition chat_messages (data : ProjectState) (context : string)
  : list (string * json) :=
  map (fun m => (m.(role), m.(content))) (last_n 6 data.(chat_history))
  ++ [("user", JStr context)].

(* ================================================================== *)
(** ** Vocabulary of the statements *)
(* ================================================================== *)

(** [d.get(k, default)] on the items of an object. *)
Definition field (items : list (string * json)) (k : string) (default : json)
  : json :=
  match lookup k items with Some v => v | None => default end.

(** The action of a decoded update, when it is an object. *)
Definition action_of (items : list (string * json)) : json :=
  field items "action" (JStr "").

(** One of the four actions the loop knows. *)
Definition known_action (a : json) : bool :=
  eq_str a "move" || eq_str a "complete" || eq_str a "add"
  || eq_str a "delete".

(** The state after a turn of the loop that only recorded the update. *)
Definition recorded (update : json) (st : Run) : Run :=
  mkRun st.(cur_tasks) (st.(task_updates) ++ [update]) st.(printed)
        st.(tick).

(** The integer that a [move] or an [add] update carries for the week. *)
Definition written_week (update : json) : option Z :=
  match update with
  | JDict items =>
      if eq_str (action_of items) "move" then
        match int (field items "new_week" JNull) with
        | Ok z => Some z
        | Raise _ => None
        end
      else if eq_str (action_of items) "add" then
        match lookup "week" items with
        | Some v => match int v with Ok z => Some z | Raise _ => None end
        | None => None
        end
      else None
  | _ => None
  end.

(** The task an [add] update builds, given the integer of its week. *)
Definition added_task (clock : nat -> instant) (items : list (string * json))
    (st : Run) (w : Z) : Task :=
  mkTask ("task-" ++ str_of_int (clock st.(tick)).(seconds))
         (field items "title" (JStr "New Task"))
         w false
         (field items "priority" (JStr "medium"))
         (field items "figure" JNull)
         (field items "reason" (JStr "")).

(** No credential: neither the environment nor [~/.env] gives a key that is
    not empty. *)
Definition no_credential (w : World) : Prop :=
  exists k, resolve_api_key w = Ok k /\ no_key k = true.

(** The call of the model fails, whatever it is asked. *)
Definition model_fails (w : World) : Prop :=
  forall k msgs, exists e, w.(ask) k msgs = Raise e.

(** [priority_order.get] needs a key that can be hashed. *)
Definition hashable (v : json) : bool :=
  match v with
  | JList _ | JDict _ => false
  | _ => true
  end.

(** A task is [placed] when the loops gave it a week between [lo] and 8. *)
Definition placed (lo : Z) (t t' : Task) : Prop :=
  exists w, lo <= w <= 8 /\ t' = set_week t w.

(** A block as the model is told to write it. *)
Definition block (body : string) : string :=
  (opener ++ nl ++ body ++ nl ++ fence)%string.

(** Text without a backquote. *)
Fixpoint plain (s : string) : bool :=
  match s with
  | EmptyString => true
  | String c s' => negb (Ascii.eqb c "`") && plain s'
  end.

(** Text in which no closing marker starts. *)
Fixpoint no_fence (s : string) : bool :=
  negb (prefix fence s)
  && match s with
     | EmptyString => true
     | String _ s' => no_fence s'
     end.

(** [int(v)] succeeds. *)
Definition coercible (v : json) : bool :=
  match int v with
  | Ok _ => true
  | Raise _ => false
  end.

(** A decoded update is well formed when it is an object and the week it
    carries ([new_week] of a [move], [week] of an [add]), if any, converts
    to an integer. *)
Definition well_formed (update : json) : bool :=
  match update with
  | JDict items =>
      if eq_str (action_of items) "move" then
        match lookup "new_week" items with
        | Some v => coercible v
        | None => true
        end
      else if eq_str (action_of items) "add" then
        match lookup "week" items with
        | Some v => coercible v
        | None => true
        end
      else true
  | _ => false
  end.

(** The decoded updates of the candidates of a reply, in their order. *)
Definition decoded_updates (candidates : list (string * result json))
  : list json :=
  flat_map (fun c => match snd c with Ok u => [u] | Raise _ => [] end)
           candidates.

(** The id an [add] gives in state [st]. *)
Definition next_id (clock : nat -> instant) (st : Run) : string :=
  ("task-" ++ str_of_int (clock st.(tick)).(seconds))%string.

(** No match of the pattern starts anywhere in the text. *)
Fixpoint never_matches (s : string) : Prop :=
  match_block s = None
  /\ match s with
     | EmptyString => True
     | String _ s' => never_matches s'
     end.

(** Every character of [s] satisfies [p]. *)
Fixpoint all_chars (p : ascii -> bool) (s : string) : bool :=
  match s with
  | EmptyString => true
  | String c s' => p c && all_chars p s'
  end.

(** The first character of [s], if any, satisfies [p]. *)
Definition starts_with (p : ascii -> bool) (s : string) : bool :=
  match s with
  | EmptyString => false
  | String c _ => p c
  end.

(** Neither white space nor a quote. *)
Definition is_bare (c : ascii) : bool := negb (is_space c || is_quote c).

(** A value that [strip] and [strip_quotes] leave alone: it is not empty,
    and its first and its last character are neither white space nor
    quotes. *)
Definition bare (k : string) : bool :=
  starts_with is_bare k && starts_with is_bare (string_rev k).

(** The variable and its sign, as a line of [~/.env] starts. *)
Definition key_name : string := "ANTHROPIC_API_KEY=".

(** The strings of a list are pairwise different. *)
Fixpoint distinct (l : list string) : bool :=
  match l with
  | [] => true
  | x :: rest => negb (existsb (String.eqb x) rest) && distinct rest
  end.

(** The number of incomplete tasks in week [k]. *)
Definition pending_in_week (k : Z) (ts : list Task) : nat :=
  List.length (filter (fun t => negb t.(completed) && (t.(week) =? k)) ts).

(** The number of incomplete tasks. *)
Definition pending_count (ts : list Task) : nat :=
  List.length (filter (fun t => negb t.(completed)) ts).

(** The number of tasks in week [k] among those whose id is in [placed_ids]:
    the tasks the redistribution has handled so far. *)
Definition placed_in_week (placed_ids : list string) (k : Z)
    (ts : list Task) : nat :=
  List.length
    (filter (fun t => existsb (String.eqb t.(id)) placed_ids
                      && (t.(week) =? k)) ts).

(** What the inner loop does to [week] and [count] when it finds a task. *)
Definition next_week (tasks_per_week week count : Z) : Z :=
  if (count >=? tasks_per_week) && (week <? 8) then week + 1 else week.

Definition next_count (tasks_per_week week count : Z) : Z :=
  (if (count >=? tasks_per_week) && (week <? 8) then 0 else count) + 1.

(** The exceptions that [int] and [get] raise. *)
Definition conversion_error (e : exn) : Prop :=
  e = AttributeError \/ e = TypeError \/ e = ValueError \/ e = OverflowError.

(* ================================================================== *)
(** ** Sample stores, updates and requests *)
(* ================================================================== *)

(** A task with the given id, week and completion. *)
Definition demo_task (i : string) (w : Z) (done : bool) : Task :=
  mkTask i (JStr "t") w done (JStr "high") JNull (JStr "").

(** A store that holds the given tasks and nothing else. *)
Definition demo_store (ts : list Task) : ProjectState :=
  mkState 0 59 ts [] [] [].

(** A PATCH body without fields. *)
Definition empty_patch : TaskPatch :=
  mkPatch None None None None None None None.

(** A clock whose readings all fall in the same second. *)
Definition demo_clock (n : nat) : instant := mkInstant 739635 1768600000.

(** The state in which [chat] enters the loop. *)
Definition demo_run (ts : list Task) : Run := mkRun ts [] [] 3%nat.

(** Decoded updates, as [json.loads] gives them. *)
Definition complete_b : list (string * json) :=
  [("action", JStr "complete"); ("task_id", JStr "b");
   ("reason", JStr "done")].

Definition complete_missing : list (string * json) :=
  [("action", JStr "complete"); ("task_id", JStr "does-not-exist")].

Definition move_a_no_week : list (string * json) :=
  [("action", JStr "move"); ("task_id", JStr "a")].

Definition complete_a : list (string * json) :=
  [("action", JStr "complete"); ("task_id", JStr "a")].

Definition move_a_soon : list (string * json) :=
  [("action", JStr "move"); ("task_id", JStr "a"); ("new_week", JStr "soon")].

Definition move_a_to (v : json) : list (string * json) :=
  [("action", JStr "move"); ("task_id", JStr "a"); ("new_week", v)].

Definition add_plain : list (string * json) :=
  [("action", JStr "add"); ("title", JStr "Order antibody");
   ("reason", JStr "needed for figure 3")].

Definition add_with (k : string) (v : json) : list (string * json) :=
  [("action", JStr "add"); ("title", JStr "Order antibody"); (k, v)].

Definition add_titled (t : string) : list (string * json) :=
  [("action", JStr "add"); ("title", JStr t); ("week", JInt 2)].

(** A request without a credential: no variable, and a [~/.env] without
    the key. *)
Definition demo_world : World :=
  mkWorld None (Lines ["# settings"; "EDITOR=vi"]) demo_clock
          (fun _ _ => Ok "Noted.").

(** One stored chat turn. *)
Definition demo_history : list ChatTurn :=
  [mkTurn "user" (JStr "hello") (mkInstant 739634 1768500000)].

(** A project started fourteen days before day 739635: an overdue task, a
    completed one and a pending one. *)
Definition overdue_store : ProjectState :=
  mkState 739621 739680
          [demo_task "a" 1 false; demo_task "b" 1 true; demo_task "c" 5 false]
          [] [] [].

(** The same project with a completed task stored in week 12. *)
Definition late_store : ProjectState :=
  mkState 739621 739680
          [demo_task "a" 1 false; demo_task "b" 12 true] [] [] [].

(** A decoder that knows two bodies and rejects every other one. *)
Definition toy_loads (s : string) : result json :=
  if String.eqb s "<move a to 2>" then Ok (JDict (move_a_to (JInt 2)))
  else if String.eqb s "<complete a>" then Ok (JDict complete_a)
  else Raise JSONDecodeError.

(** A decoder that also knows a [move] to a week that is not a number. *)
Definition toy_loads_soon (s : string) : result json :=
  if String.eqb s "<move a soon>" then Ok (JDict move_a_soon)
  else toy_loads s.

(** A text in double quotes. *)
Definition quoted (s : string) : string :=
  (String "034" "" ++ s ++ String "034" "")%string.

(** The texts of two updates, as the prompt asks the model to write them. *)
Definition move_a_text : string :=
  ("{" ++ quoted "action" ++ ": " ++ quoted "move" ++ ", "
   ++ quoted "task_id" ++ ": " ++ quoted "a" ++ ", "
   ++ quoted "new_week" ++ ": 2}")%string.

Definition complete_a_text : string :=
  ("{" ++ quoted "action" ++ ": " ++ quoted "complete" ++ ", "
   ++ quoted "task_id" ++ ": " ++ quoted "a" ++ "}")%string.

Fixpoint ones (n : nat) : string :=
  match n with
  | O => EmptyString
  | S k => String "1" (ones k)
  end.

(** An integer literal with one digit more than [int] converts. *)
Definition long_integer : string := ones (S int_max_str_digits).

(** What [json.loads] gives on the two texts above, on the number 42 and
    on the long literal; every other text is taken as refused. *)
Definition sample_loads (s : string) : result json :=
  if String.eqb s move_a_text then Ok (JDict (move_a_to (JInt 2)))
  else if String.eqb s complete_a_text then Ok (JDict complete_a)
  else if String.eqb s "42" then Ok (JInt 42)
  else if String.eqb s long_integer then Raise ValueError
  else Raise JSONDecodeError.

(** A reply with three blocks: a [move], the given body, a [complete]. *)
Definition three_blocks (middle : string) : string :=
  ("On it." ++ block move_a_text ++ " then " ++ block middle ++ " and "
   ++ block complete_a_text ++ " Done.")%string.

(** A request that finds a key in the environment and a model that answers
    with the given reply. *)
Definition answering_world (reply : string) : World :=
  mkWorld (Some "sk-test") NoFile demo_clock (fun _ _ => Ok reply).

(** A request without the variable, with a [~/.env] that holds the key in
    double quotes on its third line. *)
Definition dotenv_world : World :=
  mkWorld None
    (Lines ["# settings"; "EDITOR=vi";
            (key_name ++ String "034" "" ++ "sk-ant-123" ++ String "034" ""
             ++ nl)%string;
            (key_name ++ "other")%string])
    demo_clock (fun _ _ => Ok "Noted.").

(** A request without the variable, with a [~/.env] that cannot be read. *)
Definition locked_world : World :=
  mkWorld None (Unreadable (ServiceError "Permission denied")) demo_clock
          (fun _ _ => Ok "Noted.").

(** A request with a key whose call of the model fails. *)
Definition failing_world : World :=
  mkWorld (Some "sk-test") NoFile demo_clock
          (fun _ _ => Raise (ServiceError "overloaded")).

(** Seven stored turns. *)
Definition long_history : list ChatTurn :=
  map (fun n => mkTurn "user" (JInt n) (mkInstant 739634 (1768500000 + n)))
      [1; 2; 3; 4; 5; 6; 7].

(** Five incomplete tasks with different ids, in a project that started
    fourteen days before day 739635. *)
Definition five_store : ProjectState :=
  mkState 739621 739680
          [demo_task "a" 1 false; demo_task "b" 2 false;
           demo_task "c" 3 false; demo_task "d" 3 false;
           demo_task "e" 8 false] [] [] [].

(* ================================================================== *)
(** * Properties *)
(* ================================================================== *)

(** ** Small facts about the Python values *)

Lemma eq_str_true (v : json) (s : string) : eq_str v s = true -> v = JStr s.
Proof.
  destruct v; simpl; try discriminate.
  intros H. apply String.eqb_eq in H. now subst.
Qed.

Lemma eq_str_refl (s : string) : eq_str (JStr s) s = true.
Proof. simpl. apply String.eqb_refl. Qed.

Lemma get_dict (items : list (string * json)) (k : string) (default : json) :
  get (JDict items) k default = Ok (field items k default).
Proof. reflexivity. Qed.

Lemma set_tasks_same (data : ProjectState) : set_tasks data data.(tasks) = data.
Proof. now destruct data. Qed.

(** ** PATCH with an id that no task has *)

Lemma last_cons {A} (l : list A) (a d : A) : last (a :: l) d = last l a.
Proof.
  revert a d. induction l as [|b l IH]; intros a d; [reflexivity|].
  change (last (a :: b :: l) d) with (last (b :: l) d).
  rewrite IH. symmetry. apply IH.
Qed.

Lemma last_in {A} (l : list A) (d : A) : In (last l d) (d :: l).
Proof.
  revert d. induction l as [|a l IH]; intros d; [now left|].
  rewrite last_cons. right. apply IH.
Qed.

Lemma update_loop_unmatched (tid : string) (u : TaskPatch) (ts : list Task) :
  (forall t, In t ts -> t.(id) <> tid) ->
  forall bound,
    update_loop tid u ts bound =
    (ts, match ts with [] => bound | t :: rest => Some (last rest t) end).
Proof.
  induction ts as [|t rest IH]; intros Hnone bound; simpl; [reflexivity|].
  destruct (String.eqb_spec t.(id) tid) as [E|_].
  - exfalso. apply (Hnone t); [now left | exact E].
  - rewrite IH by (intros t' Ht'; apply Hnone; now right).
    destruct rest as [|r rest']; [reflexivity|]. now rewrite last_cons.
Qed.

(** C10. PATCH /api/task/<id> with an id that matches no task: the store is
    written back unchanged; when the task list is not empty the response
    carries the last task of the list (whose id is not the requested one),
    and when it is empty the handler raises (the variable [task] was never
    bound) instead of returning a response. *)
Theorem update_task_unmatched (tid : string) (u : TaskPatch)
    (data : ProjectState) :
  (forall t, In t data.(tasks) -> t.(id) <> tid) ->
  update_task tid u data =
    (data,
     match data.(tasks) with
     | [] => Raise UnboundLocalError
     | t :: rest => Ok (mkUpdateResponse "updated" (last rest t))
     end)
  /\ (forall t rest, data.(tasks) = t :: rest ->
        In (last rest t) data.(tasks) /\ (last rest t).(id) <> tid).
Proof.
  intros Hnone. split.
  - unfold update_task. rewrite (update_loop_unmatched u _ Hnone).
    rewrite set_tasks_same. now destruct data.(tasks).
  - intros t rest E.
    assert (Hin : In (last rest t) (t :: rest)) by apply last_in.
    rewrite E. split; [exact Hin|]. apply Hnone. now rewrite E.
Qed.

Lemma update_task_unmatched_witness :
  update_task "nope" (mkPatch None None (Some 5) None None None None)
    (demo_store [demo_task "a" 1 false; demo_task "b" 2 false])
  = (demo_store [demo_task "a" 1 false; demo_task "b" 2 false],
     Ok (mkUpdateResponse "updated" (demo_task "b" 2 false)))
  /\ update_task "nope" empty_patch (demo_store [])
     = (demo_store [], Raise UnboundLocalError).
Proof.
  split.
  - apply (update_task_unmatched
             (mkPatch None None (Some 5) None None None None)
             (demo_store [demo_task "a" 1 false; demo_task "b" 2 false])).
    simpl. intros t [<-|[<-|[]]]; discriminate.
  - apply (update_task_unmatched empty_patch (demo_store [])).
    simpl. intros t [].
Defined.

(** ** One update at a time *)

Section ApplyFacts.

Variable clock : nat -> instant.
Variable cw : Z.

Lemma apply_move (items : list (string * json)) (st : Run) :
  eq_str (action_of items) "move" = true ->
  apply_update clock cw (JDict items) st =
    let task_id := field items "task_id" JNull in
    let new_week := field items "new_week" JNull in
    if truthy task_id && truthy new_week then
      found <- move_loop task_id new_week st.(cur_tasks) ;;
      match found with
      | Some ts =>
          Ok (mkRun ts st.(task_updates)
                    (st.(printed) ++ [Moved task_id new_week]) st.(tick))
      | None => Ok st
      end
    else Ok st.
Proof.
  intros H. apply eq_str_true in H. unfold action_of in H.
  unfold apply_update. rewrite !get_dict. simpl bind. now rewrite H.
Qed.

Lemma apply_complete (items : list (string * json)) (st : Run) :
  eq_str (action_of items) "complete" = true ->
  apply_update clock cw (JDict items) st =
    let task_id := field items "task_id" JNull in
    if truthy task_id then
      match complete_loop task_id st.(cur_tasks) with
      | Some ts =>
          Ok (mkRun ts st.(task_updates)
                    (st.(printed) ++ [Completed task_id]) st.(tick))
      | None => Ok st
      end
    else Ok st.
Proof.
  intros H. apply eq_str_true in H. unfold action_of in H.
  unfold apply_update. rewrite !get_dict. simpl bind. now rewrite H.
Qed.

Lemma apply_add (items : list (string * json)) (st : Run) :
  eq_str (action_of items) "add" = true ->
  apply_update clock cw (JDict items) st =
    w <- int (field items "week" (JInt cw)) ;;
    Ok (mkRun
          (st.(cur_tasks)
           ++ [mkTask ("task-" ++ str_of_int (clock st.(tick)).(seconds))
                      (field items "title" (JStr "New Task")) w false
                      (field items "priority" (JStr "medium"))
                      (field items "figure" JNull)
                      (field items "reason" (JStr ""))])
          st.(task_updates)
          (st.(printed) ++ [Added (field items "title" (JStr "New Task"))])
          (S st.(tick))).
Proof.
  intros H. apply eq_str_true in H. unfold action_of in H.
  unfold apply_update. rewrite !get_dict. simpl bind. rewrite H. simpl.
  now destruct (int (field items "week" (JInt cw))).
Qed.

Lemma apply_delete (items : list (string * json)) (st : Run) :
  eq_str (action_of items) "delete" = true ->
  apply_update clock cw (JDict items) st =
    let task_id := field items "task_id" JNull in
    if truthy task_id then
      Ok (mkRun (filter (fun t => negb (eq_str task_id t.(id)))
                        st.(cur_tasks))
                st.(task_updates) (st.(printed) ++ [Deleted task_id])
                st.(tick))
    else Ok st.
Proof.
  intros H. apply eq_str_true in H. unfold action_of in H.
  unfold apply_update. rewrite !get_dict. simpl bind. now rewrite H.
Qed.

Lemma apply_unknown (items : list (string * json)) (st : Run) :
  known_action (action_of items) = false ->
  apply_update clock cw (JDict items) st = Ok st.
Proof.
  unfold known_action, action_of. intros H.
  apply orb_false_elim in H as [H Hd].
  apply orb_false_elim in H as [H Ha].
  apply orb_false_elim in H as [Hm Hc].
  unfold apply_update. rewrite !get_dict. simpl bind.
  now rewrite Hm, Hc, Ha, Hd.
Qed.

Lemma complete_loop_none (tid : json) (ts : list Task) :
  (forall t, In t ts -> eq_str tid t.(id) = false) ->
  complete_loop tid ts = None.
Proof.
  induction ts as [|t rest IH]; intros H; simpl; [reflexivity|].
  rewrite (H t) by now left.
  rewrite IH; [reflexivity|]. intros t' Ht'. apply H. now right.
Qed.

Lemma complete_loop_again (tid : json) (ts ts' : list Task) :
  complete_loop tid ts = Some ts' -> complete_loop tid ts' = Some ts'.
Proof.
  revert ts'. induction ts as [|t rest IH]; intros ts'; simpl; [discriminate|].
  destruct (eq_str tid t.(id)) eqn:E.
  - intros [= <-]. simpl. now rewrite E.
  - destruct (complete_loop tid rest) as [r|]; simpl; [|discriminate].
    intros [= <-]. simpl. rewrite E. now rewrite (IH r eq_refl).
Qed.

Lemma filter_again {A} (f : A -> bool) (l : list A) :
  filter f (filter f l) = filter f l.
Proof.
  induction l as [|a l IH]; simpl; [reflexivity|].
  destruct (f a) eqn:E; simpl; [rewrite E|]; now rewrite IH.
Qed.

End ApplyFacts.

(** C5. A [complete] or a [delete] update applied a second time leaves the
    task list as the first application left it; both applications succeed,
    also when the task is complete already or no task has the id. *)
Theorem complete_delete_idempotent (clock : nat -> instant) (cw : Z)
    (items : list (string * json)) (st : Run) :
  eq_str (action_of items) "complete" = true
  \/ eq_str (action_of items) "delete" = true ->
  exists st1 st2,
    apply_update clock cw (JDict items) st = Ok st1
    /\ apply_update clock cw (JDict items) st1 = Ok st2
    /\ st2.(cur_tasks) = st1.(cur_tasks).
Proof.
  intros [H|H].
  - rewrite (apply_complete clock cw items st H). cbv zeta.
    destruct (truthy (field items "task_id" JNull)) eqn:T.
    + destruct (complete_loop _ st.(cur_tasks)) as [ts|] eqn:L.
      * eexists. eexists. split; [reflexivity|].
        rewrite (apply_complete clock cw items _ H). cbv zeta. rewrite T.
        simpl cur_tasks. rewrite (complete_loop_again _ _ L).
        split; reflexivity.
      * exists st, st. split; [reflexivity|].
        rewrite (apply_complete clock cw items st H). cbv zeta.
        rewrite T, L. split; reflexivity.
    + exists st, st. split; [reflexivity|].
      rewrite (apply_complete clock cw items st H). cbv zeta. rewrite T.
      split; reflexivity.
  - rewrite (apply_delete clock cw items st H). cbv zeta.
    destruct (truthy (field items "task_id" JNull)) eqn:T.
    + eexists. eexists. split; [reflexivity|].
      rewrite (apply_delete clock cw items _ H). cbv zeta. rewrite T.
      split; [reflexivity|]. simpl. apply filter_again.
    + exists st, st. split; [reflexivity|].
      rewrite (apply_delete clock cw items st H). cbv zeta. rewrite T.
      split; reflexivity.
Qed.

Lemma complete_delete_idempotent_witness :
  exists st1 st2,
    apply_update demo_clock 1 (JDict complete_b)
      (demo_run [demo_task "a" 1 false; demo_task "b" 2 false]) = Ok st1
    /\ apply_update demo_clock 1 (JDict complete_b) st1 = Ok st2
    /\ st2.(cur_tasks) = st1.(cur_tasks).
Proof.
  apply (complete_delete_idempotent demo_clock 1 complete_b).
  left. reflexivity.
Defined.

(** ** Updates that are not applied *)

Lemma step_decoded (clock : nat -> instant) (cw : Z) (m : string)
    (update : json) (st : Run) :
  step clock cw (m, Ok update) st
  = apply_update clock cw update (recorded update st).
Proof. reflexivity. Qed.

(** C8, amended. An update that is not applied leaves no record of its
    own: when the action is not one of the four, or when it is [complete]
    and no task has the id, the turn of the loop raises nothing, keeps the
    tasks, prints nothing, and lists the update in [task_updates] as it
    lists an applied one. *)
Theorem unapplied_update_is_silent (clock : nat -> instant) (cw : Z)
    (m : string) (items : list (string * json)) (st : Run) :
  known_action (action_of items) = false
  \/ (eq_str (action_of items) "complete" = true
      /\ forall t, In t st.(cur_tasks) ->
           eq_str (field items "task_id" JNull) t.(id) = false) ->
  step clock cw (m, Ok (JDict items)) st = Ok (recorded (JDict items) st).
Proof.
  intros [H|[H Hnone]]; rewrite step_decoded.
  - now rewrite apply_unknown.
  - rewrite (apply_complete clock cw items _ H). cbv zeta.
    destruct (truthy _); [|reflexivity].
    simpl cur_tasks. now rewrite (complete_loop_none _ _ Hnone).
Qed.

Lemma unapplied_update_is_silent_witness :
  step demo_clock 1 ("{}", Ok (JDict complete_missing))
       (demo_run [demo_task "a" 1 false])
  = Ok (recorded (JDict complete_missing) (demo_run [demo_task "a" 1 false])).
Proof.
  apply (unapplied_update_is_silent demo_clock 1 "{}" complete_missing).
  right. split; [reflexivity|].
  simpl. intros t [<-|[]]. reflexivity.
Defined.

(** C8 as stated fails: a [complete] of an id that no task has prints no
    line at all, so no skip record is logged; the same holds for an action
    that is not known. *)
Lemma skipped_update_logs_nothing :
  ~ (exists st',
       step demo_clock 1 ("{}", Ok (JDict complete_missing))
            (demo_run [demo_task "a" 1 false]) = Ok st'
       /\ List.length st'.(printed) = 1%nat)
  /\ ~ (exists st',
          step demo_clock 1 ("{}", Ok (JDict [("action", JStr "archive")]))
               (demo_run [demo_task "a" 1 false]) = Ok st'
          /\ List.length st'.(printed) = 1%nat).
Proof.
  split; intros [st' [H L]]; vm_compute in H; injection H as <-;
    discriminate L.
Qed.

(** ** [move] *)

(** C1, amended. A [move] update whose [new_week] is absent, null, zero or
    empty is skipped without a word: applying it raises nothing and changes
    neither the tasks nor the printed lines, and the loop goes on with the
    updates that follow. *)
Theorem move_without_week_is_skipped (clock : nat -> instant) (cw : Z)
    (m : string) (items : list (string * json))
    (more : list (string * result json)) (st : Run) :
  eq_str (action_of items) "move" = true ->
  truthy (field items "new_week" JNull) = false ->
  apply_update clock cw (JDict items) st = Ok st
  /\ run_updates clock cw ((m, Ok (JDict items)) :: more) st
     = run_updates clock cw more (recorded (JDict items) st).
Proof.
  intros H F.
  assert (E : forall s, apply_update clock cw (JDict items) s = Ok s).
  { intros s. rewrite (apply_move clock cw items s H). cbv zeta.
    rewrite F, andb_false_r. reflexivity. }
  split; [apply E|].
  simpl. now rewrite step_decoded, E.
Qed.

Lemma move_without_week_is_skipped_witness :
  apply_update demo_clock 1 (JDict move_a_no_week)
    (demo_run [demo_task "a" 1 false])
  = Ok (demo_run [demo_task "a" 1 false])
  /\ run_updates demo_clock 1
       [("m", Ok (JDict move_a_no_week)); ("c", Ok (JDict complete_a))]
       (demo_run [demo_task "a" 1 false])
     = run_updates demo_clock 1 [("c", Ok (JDict complete_a))]
         (recorded (JDict move_a_no_week) (demo_run [demo_task "a" 1 false])).
Proof.
  apply (move_without_week_is_skipped demo_clock 1 "m" move_a_no_week
           [("c", Ok (JDict complete_a))]
           (demo_run [demo_task "a" 1 false]));
    reflexivity.
Defined.

(** C1 as stated fails twice. A [new_week] that is not a number makes
    [int] raise [ValueError], which the handler of the loop does not catch:
    the batch stops and the update that follows is not applied. And the skip
    of an absent [new_week] prints no line. *)
Lemma move_non_numeric_week_raises :
  run_updates demo_clock 1
    [("m", Ok (JDict move_a_soon)); ("c", Ok (JDict complete_a))]
    (demo_run [demo_task "a" 1 false])
  = Raise ValueError
  /\ (forall st',
        step demo_clock 1 ("m", Ok (JDict move_a_no_week))
             (demo_run [demo_task "a" 1 false]) = Ok st' ->
        st'.(printed) = []).
Proof.
  split; [reflexivity|].
  intros st' H. vm_compute in H. now injection H as <-.
Qed.

(** ** The range of [week] *)

Lemma current_week_range (days_passed : Z) :
  1 <= current_week days_passed <= TOTAL_WEEKS.
Proof. unfold current_week, TOTAL_WEEKS. lia. Qed.

Lemma move_loop_weeks (tid nw : json) (ts ts' : list Task) :
  move_loop tid nw ts = Ok (Some ts') ->
  exists z, int nw = Ok z
            /\ forall t', In t' ts' -> In t' ts \/ t'.(week) = z.
Proof.
  revert ts'. induction ts as [|t rest IH]; intros ts'; simpl; [discriminate|].
  destruct (eq_str tid t.(id)).
  - destruct (int nw) as [z|e]; simpl; [|discriminate].
    intros [= <-]. exists z. split; [reflexivity|].
    intros t' [<-|Hin]; [now right | left; now right].
  - destruct (move_loop tid nw rest) as [[r|]|e]; simpl; try discriminate.
    intros [= <-]. destruct (IH r eq_refl) as [z [Hz Hr]].
    exists z. split; [exact Hz|].
    intros t' [<-|Hin]; [left; now left|].
    destruct (Hr t' Hin) as [H|H]; [left; now right | now right].
Qed.

Lemma complete_loop_weeks (tid : json) (ts ts' : list Task) :
  complete_loop tid ts = Some ts' ->
  forall t', In t' ts' -> exists t, In t ts /\ t'.(week) = t.(week).
Proof.
  revert ts'. induction ts as [|t rest IH]; intros ts'; simpl; [discriminate|].
  destruct (eq_str tid t.(id)).
  - intros [= <-] t' [<-|Hin].
    + exists t. split; [now left | reflexivity].
    + exists t'. split; [now right | reflexivity].
  - destruct (complete_loop tid rest) as [r|]; simpl; [|discriminate].
    intros [= <-] t' [<-|Hin].
    + exists t. split; [now left | reflexivity].
    + destruct (IH r eq_refl t' Hin) as [t0 [H0 E0]].
      exists t0. split; [now right | exact E0].
Qed.

Lemma known_action_cases (a : json) :
  known_action a = true ->
  eq_str a "move" = true \/ eq_str a "complete" = true
  \/ eq_str a "add" = true \/ eq_str a "delete" = true.
Proof.
  unfold known_action. intros H.
  repeat (apply orb_true_iff in H as [H|H]); auto.
Qed.

(** C3, amended. No update checks the range of a week. [complete] and
    [delete] keep every week as it is; [move] and [add] write the integer
    they carry as it comes, and an [add] without a week writes the current
    week, which lies in 1..8. So the range invariant is kept by an update
    whenever the integer it carries, if any, lies in 1..8. *)
Theorem weeks_in_range_kept (clock : nat -> instant) (days_passed : Z)
    (update : json) (st st' : Run) :
  weeks_in_range st.(cur_tasks) ->
  (forall z, written_week update = Some z -> 1 <= z <= TOTAL_WEEKS) ->
  apply_update clock (current_week days_passed) update st = Ok st' ->
  weeks_in_range st'.(cur_tasks).
Proof.
  intros Hrange Hw Happ.
  destruct update as [| | | | |l|items]; try discriminate Happ.
  destruct (known_action (action_of items)) eqn:K.
  - apply known_action_cases in K as [K|[K|[K|K]]].
    + rewrite (apply_move _ _ items st K) in Happ. cbv zeta in Happ.
      simpl in Hw. rewrite K in Hw.
      destruct (_ && _); [|now injection Happ as <-].
      destruct (move_loop _ _ _) as [[ts|]|e] eqn:L; simpl in Happ;
        try discriminate Happ; injection Happ as <-; [|exact Hrange].
      apply move_loop_weeks in L as [z [Hz Hts]]. rewrite Hz in Hw.
      intros t' Ht'. simpl in Ht'.
      destruct (Hts t' Ht') as [H| ->]; [now apply Hrange | now apply Hw].
    + rewrite (apply_complete _ _ items st K) in Happ. cbv zeta in Happ.
      destruct (truthy _); [|now injection Happ as <-].
      destruct (complete_loop _ _) as [ts|] eqn:L; injection Happ as <-;
        [|exact Hrange].
      intros t' Ht'. simpl in Ht'.
      destruct (complete_loop_weeks _ _ L t' Ht') as [t [Ht ->]].
      now apply Hrange.
    + rewrite (apply_add _ _ items st K) in Happ.
      assert (M : eq_str (action_of items) "move" = false).
      { apply eq_str_true in K. now rewrite K. }
      simpl in Hw. rewrite M, K in Hw. unfold field in Happ at 1.
      destruct (lookup "week" items) as [v|].
      * destruct (int v) as [z|e]; simpl in Happ; [|discriminate Happ].
        injection Happ as <-. intros t' Ht'. simpl in Ht'.
        apply in_app_or in Ht' as [Ht'|[<-|[]]]; [now apply Hrange|].
        simpl. now apply Hw.
      * simpl in Happ. injection Happ as <-. intros t' Ht'. simpl in Ht'.
        apply in_app_or in Ht' as [Ht'|[<-|[]]]; [now apply Hrange|].
        simpl. apply current_week_range.
    + rewrite (apply_delete _ _ items st K) in Happ. cbv zeta in Happ.
      destruct (truthy _); injection Happ as <-; [|exact Hrange].
      intros t' Ht'. simpl in Ht'. apply filter_In in Ht' as [Ht' _].
      now apply Hrange.
  - rewrite apply_unknown in Happ by exact K. now injection Happ as <-.
Qed.

Lemma demo_in_range : weeks_in_range [demo_task "a" 1 false].
Proof. intros t [<-|[]]. simpl. unfold TOTAL_WEEKS. lia. Qed.

Lemma weeks_in_range_kept_witness :
  weeks_in_range
    (mkRun [demo_task "a" 3 false] [] [Moved (JStr "a") (JInt 3)] 3%nat)
      .(cur_tasks).
Proof.
  apply (@weeks_in_range_kept demo_clock 0 (JDict (move_a_to (JInt 3)))
           (demo_run [demo_task "a" 1 false])).
  - exact demo_in_range.
  - simpl. intros z [= <-]. unfold TOTAL_WEEKS. lia.
  - reflexivity.
Defined.

(** C3 as stated fails: a [move] to week 99 is applied to a store that is
    in range, and leaves it out of range. *)
Lemma move_out_of_range :
  weeks_in_range (demo_run [demo_task "a" 1 false]).(cur_tasks)
  /\ exists st',
       apply_update demo_clock (current_week 0) (JDict (move_a_to (JInt 99)))
         (demo_run [demo_task "a" 1 false]) = Ok st'
       /\ ~ weeks_in_range st'.(cur_tasks).
Proof.
  split; [exact demo_in_range|].
  eexists. split; [reflexivity|].
  intros H. specialize (H (demo_task "a" 99 false) (or_introl eq_refl)).
  simpl in H. unfold TOTAL_WEEKS in H. lia.
Qed.

(** ** [add] *)

(** C4, amended. An [add] update whose week is absent or converts to an
    integer is applied: one task is appended, with [completed] false, the
    priority of the update as it comes (['medium'] only when the field is
    absent), the integer of the week (the current week when the field is
    absent), the figure of the update (null when absent) and its reason as
    notes (empty when absent). *)
Theorem add_appends_task (clock : nat -> instant) (cw : Z)
    (items : list (string * json)) (st : Run) (w : Z) :
  eq_str (action_of items) "add" = true ->
  int (field items "week" (JInt cw)) = Ok w ->
  apply_update clock cw (JDict items) st
  = Ok (mkRun (st.(cur_tasks) ++ [added_task clock items st w])
              st.(task_updates)
              (st.(printed) ++ [Added (field items "title" (JStr "New Task"))])
              (S st.(tick)))
  /\ (added_task clock items st w).(completed) = false
  /\ (lookup "week" items = None -> w = cw)
  /\ (lookup "priority" items = None ->
        (added_task clock items st w).(priority) = JStr "medium")
  /\ (forall v, lookup "priority" items = Some v ->
        (added_task clock items st w).(priority) = v)
  /\ (forall v, lookup "figure" items = Some v ->
        (added_task clock items st w).(figure) = v)
  /\ (forall v, lookup "reason" items = Some v ->
        (added_task clock items st w).(notes) = v).
Proof.
  intros H W. split.
  - rewrite (apply_add clock cw items st H), W. reflexivity.
  - unfold added_task, field in *. simpl.
    repeat split.
    + intros E. rewrite E in W. now injection W as <-.
    + now intros ->.
    + now intros v ->.
    + now intros v ->.
    + now intros v ->.
Qed.

Lemma add_appends_task_witness :
  apply_update demo_clock 4 (JDict add_plain) (demo_run [])
  = Ok (mkRun [mkTask "task-1768600000" (JStr "Order antibody") 4 false
                      (JStr "medium") JNull (JStr "needed for figure 3")]
              [] [Added (JStr "Order antibody")] 4%nat).
Proof.
  apply (add_appends_task demo_clock 4 add_plain (demo_run []) (w:=4));
    reflexivity.
Defined.

(** C4 as stated fails twice. A priority outside the four names is kept as
    it comes, not replaced by ['medium']. And a week that is not a number
    makes [int] raise, so the update does not always succeed. *)
Lemma add_keeps_priority_and_can_raise :
  (exists st',
     apply_update demo_clock 4 (JDict (add_with "priority" (JStr "urgent")))
       (demo_run []) = Ok st'
     /\ map priority st'.(cur_tasks) = [JStr "urgent"])
  /\ apply_update demo_clock 4 (JDict (add_with "week" (JStr "soon")))
       (demo_run []) = Raise ValueError.
Proof.
  split; [|reflexivity].
  eexists. split; reflexivity.
Qed.

(** ** The ids of added tasks *)

(** C2, the code at its failing input: two [add] updates of one reply,
    applied within the same second, give two tasks with the same id, and
    the task list has no longer unique ids. *)
Theorem two_adds_in_one_second_share_an_id :
  exists st',
    run_updates demo_clock 1
      [("a1", Ok (JDict (add_titled "first")));
       ("a2", Ok (JDict (add_titled "second")))]
      (demo_run [demo_task "a" 1 false]) = Ok st'
    /\ map id st'.(cur_tasks) = ["a"; "task-1768600000"; "task-1768600000"]
    /\ unique_ids (demo_run [demo_task "a" 1 false]).(cur_tasks)
    /\ ~ unique_ids st'.(cur_tasks).
Proof.
  eexists. split; [reflexivity|]. split; [reflexivity|]. split.
  - repeat constructor. simpl. tauto.
  - unfold unique_ids. simpl. intros H.
    apply NoDup_cons_iff in H as [_ H].
    apply NoDup_cons_iff in H as [H _]. apply H. now left.
Qed.

(** ** The failure path of [chat] *)

Section ChatFacts.

Variable json_loads : string -> result json.
Variable exn_text : exn -> string.
Variable render_context : Z -> ProjectState -> json -> string.

(** C9. When no credential can be resolved, or the call of the model
    fails, [chat] returns a response (it does not raise) with [error] true,
    a reply text that is not empty and no task update, and the store on
    disk is the store that was loaded: no task is changed and the chat
    history has the turns it had. *)
Theorem chat_failure_is_flagged (w : World) (items : list (string * json))
    (data : ProjectState) :
  no_credential w \/ model_fails w ->
  exists r,
    chat json_loads exn_text render_context w (JDict items) data
    = (data, Ok r)
    /\ r.(error) = true
    /\ r.(response) <> ""
    /\ r.(resp_task_updates) = [].
Proof.
  intros H. unfold chat. rewrite get_dict. cbv zeta.
  set (cw := current_week _). set (msgs := _ ++ _).
  unfold chat_try.
  destruct H as [[k [Hk Hn]]|Hfail].
  - rewrite Hk. simpl bind. rewrite Hn.
    eexists. split; [reflexivity|]. repeat split. discriminate.
  - destruct (resolve_api_key w) as [k|e]; simpl bind.
    + destruct (no_key k).
      * eexists. split; [reflexivity|]. repeat split. discriminate.
      * destruct (Hfail (or_else k "") msgs) as [e He]. rewrite He.
        simpl bind. eexists. split; [reflexivity|]. repeat split.
        discriminate.
    + eexists. split; [reflexivity|]. repeat split. discriminate.
Qed.

(** The two ways out of [chat] once the model has answered: the loop went
    through and the store is written, or an exception left the loop and the
    store on disk stays as it was loaded. *)
Lemma chat_after_reply (w : World) (items : list (string * json))
    (data : ProjectState) (k text : string) :
  resolve_api_key w = Ok (Some k) ->
  String.eqb k "" = false ->
  (forall msgs, w.(ask) k msgs = Ok text) ->
  let cw := current_week ((w.(clock) 0%nat).(ordinal) - data.(project_start)) in
  let user_message := field items "message" (JStr "") in
  chat json_loads exn_text render_context w (JDict items) data
  = match process_reply json_loads w cw text
            (mkRun data.(tasks) [] [] 3%nat) with
    | Ok st =>
        (set_chat_history (set_tasks data st.(cur_tasks))
           (data.(chat_history)
            ++ [mkTurn "user" user_message (w.(clock) 1%nat);
                mkTurn "assistant" (JStr text) (w.(clock) 2%nat)]),
         Ok (mkChatResponse (strip (sub_blocks text)) st.(task_updates) false))
    | Raise e =>
        (data,
         Ok (mkChatResponse
               ("Error communicating with AI: " ++ exn_text e)%string
               [] true))
    end.
Proof.
  intros Hk Hne Hask. cbv zeta. unfold chat. rewrite get_dict. cbv zeta.
  unfold chat_try. rewrite Hk. cbn [bind no_key or_else]. rewrite Hne.
  rewrite Hask. cbn [bind].
  now destruct (process_reply _ _ _ _ _).
Qed.

End ChatFacts.

Lemma chat_failure_is_flagged_witness :
  exists r,
    chat (fun _ => Raise JSONDecodeError) (fun _ => "err")
         (fun _ _ _ => "context") demo_world
         (JDict [("message", JStr "move MAG quantification to week 2")])
         (mkState 739633 739692 [demo_task "a" 1 false] [] [] demo_history)
    = (mkState 739633 739692 [demo_task "a" 1 false] [] [] demo_history, Ok r)
    /\ r.(error) = true
    /\ r.(response) <> ""
    /\ r.(resp_task_updates) = [].
Proof.
  apply (@chat_failure_is_flagged (fun _ => Raise JSONDecodeError)
           (fun _ => "err")
           (fun _ _ _ => "context") demo_world).
  left. exists None. split; reflexivity.
Defined.

(* ================================================================== *)
(** ** Auto-adjust *)
(* ================================================================== *)

Section Pointwise.

Variables A B C : Type.

Lemma Forall2_map_right (f : A -> B) (l : list A) :
  Forall2 (fun x y => y = f x) l (map f l).
Proof. induction l; simpl; constructor; auto. Qed.

Lemma Forall2_same (l : list A) : Forall2 eq l l.
Proof. induction l; constructor; auto. Qed.

Lemma Forall2_weaken (R S : A -> B -> Prop) (l : list A) (l' : list B) :
  (forall x y, In x l -> R x y -> S x y) ->
  Forall2 R l l' -> Forall2 S l l'.
Proof.
  intros H F. induction F as [|x y l l' Hxy F IH]; constructor.
  - apply H; [now left | exact Hxy].
  - apply IH. intros x' y' Hin. apply H. now right.
Qed.

Lemma Forall2_chain (R : A -> B -> Prop) (S : B -> C -> Prop)
    (T : A -> C -> Prop) (l1 : list A) (l2 : list B) (l3 : list C) :
  (forall x y z, In x l1 -> R x y -> S y z -> T x z) ->
  Forall2 R l1 l2 -> Forall2 S l2 l3 -> Forall2 T l1 l3.
Proof.
  intros H F. revert l3. induction F as [|x y l l' Hxy F IH]; intros l3 G.
  - inversion G. constructor.
  - inversion G as [|y' z l2' l3' Hyz G']; subst. constructor.
    + apply (H x y z); [now left | exact Hxy | exact Hyz].
    + apply IH; [|exact G']. intros a b c Hin. apply H. now right.
Qed.

Lemma Forall2_in_right (R : A -> B -> Prop) (l : list A) (l' : list B)
    (y : B) :
  Forall2 R l l' -> In y l' -> exists x, In x l /\ R x y.
Proof.
  intros F. induction F as [|x y' l l' Hxy F IH]; intros Hin; [contradiction|].
  destruct Hin as [<-|Hin].
  - exists x. split; [now left | exact Hxy].
  - destruct (IH Hin) as [x' [Hx' HR]]. exists x'. split; [now right|exact HR].
Qed.

End Pointwise.

Lemma in_unique_id (ts : list Task) (t u : Task) :
  unique_ids ts -> In t ts -> In u ts -> t.(id) = u.(id) -> t = u.
Proof.
  unfold unique_ids. induction ts as [|a ts IH]; simpl; [contradiction|].
  intros N Ht Hu E. apply NoDup_cons_iff in N as [Na N].
  destruct Ht as [<-|Ht], Hu as [<-|Hu]; auto.
  - exfalso. apply Na. rewrite E. now apply in_map.
  - exfalso. apply Na. rewrite <- E. now apply in_map.
Qed.

(** *** The sort keeps the tasks it is given *)

Lemma keys_of_ok (ts : list Task) :
  (forall t, In t ts -> hashable t.(priority) = true) ->
  exists ks, keys_of ts = Ok ks /\ map snd ks = ts.
Proof.
  induction ts as [|t rest IH]; intros H; simpl.
  - exists []. split; reflexivity.
  - destruct IH as [ks [E M]]; [intros t' Ht'; apply H; now right|].
    assert (P : exists r, priority_order_get t.(priority) = Ok r).
    { specialize (H t (or_introl eq_refl)).
      destruct t.(priority); simpl in *; try discriminate; eauto. }
    destruct P as [r ->]. simpl. rewrite E. simpl.
    eexists. split; [reflexivity|]. simpl. now rewrite M.
Qed.

Lemma insert_keyed_in (x y : Z * Z * Task) (l : list (Z * Z * Task)) :
  In y (insert_keyed x l) <-> y = x \/ In y l.
Proof.
  induction l as [|a l IH]; simpl.
  - intuition.
  - destruct (key_le (fst x) (fst a)); simpl; rewrite ?IH; intuition.
Qed.

Lemma sort_keyed_in (y : Z * Z * Task) (l : list (Z * Z * Task)) :
  In y (sort_keyed l) <-> In y l.
Proof.
  induction l as [|a l IH]; simpl; [reflexivity|].
  rewrite insert_keyed_in, IH. intuition.
Qed.

Lemma sort_incomplete_ok (ts : list Task) :
  (forall t, In t ts -> hashable t.(priority) = true) ->
  exists sorted,
    sort_incomplete ts = Ok sorted /\ forall t, In t sorted <-> In t ts.
Proof.
  intros H. destruct (keys_of_ok ts H) as [ks [E M]].
  unfold sort_incomplete. rewrite E. simpl.
  eexists. split; [reflexivity|]. intros t. rewrite <- M, !in_map_iff.
  split; intros [k [Hk Hin]]; exists k; (split; [exact Hk|]);
    now apply sort_keyed_in.
Qed.

(** *** The two loops of the redistribution *)

Lemma set_week_twice (t : Task) (w w' : Z) :
  set_week (set_week t w) w' = set_week t w'.
Proof. reflexivity. Qed.

Lemma same_ids (R : Task -> Task -> Prop) (ts ts' : list Task) :
  (forall t t', R t t' -> t'.(id) = t.(id)) ->
  Forall2 R ts ts' -> map id ts' = map id ts.
Proof.
  intros H F. induction F as [|t t' l l' Ht F IH]; simpl; [reflexivity|].
  now rewrite (H t t' Ht), IH.
Qed.

Lemma placed_id (lo : Z) (t t' : Task) :
  t' = t \/ placed lo t t' -> t'.(id) = t.(id).
Proof. intros [->|[w [_ ->]]]; reflexivity. Qed.

Section Redistribution.

Variable lo : Z.
Variable tasks_per_week : Z.

Lemma assign_first_spec (tid : string) (ts : list Task) :
  forall week count ts' w' c',
    lo <= week <= 8 ->
    assign_first tid tasks_per_week week count ts = (ts', w', c') ->
    lo <= w' <= 8
    /\ Forall2 (fun t t' => t' = t \/ placed lo t t') ts ts'
    /\ (unique_ids ts ->
        Forall2 (fun t t' => (t.(id) = tid /\ placed lo t t')
                             \/ (t.(id) <> tid /\ t' = t)) ts ts').
Proof.
  induction ts as [|t rest IH]; intros week count ts' w' c' Hw; simpl.
  - intros [= <- <- <-]. split; [exact Hw|]. split; [constructor|].
    intros _. constructor.
  - destruct (String.eqb_spec t.(id) tid) as [E|E].
    + intros [= <- <- <-].
      set (nw := if (count >=? tasks_per_week) && (week <? 8)
                 then week + 1 else week).
      assert (Hnw : lo <= nw <= 8).
      { unfold nw. destruct (count >=? tasks_per_week); simpl; [|lia].
        destruct (Z.ltb_spec week 8); lia. }
      split; [exact Hnw|]. split.
      * constructor; [right; now exists nw|].
        apply Forall2_weaken with (R := eq); [|apply Forall2_same].
        intros x y _ ->. now left.
      * intros N. apply NoDup_cons_iff in N as [Nt _].
        constructor; [left; split; [exact E | now exists nw]|].
        apply Forall2_weaken with (R := eq); [|apply Forall2_same].
        intros x y Hin ->. right. split; [|reflexivity].
        intros Ex. apply Nt. rewrite E, <- Ex. now apply in_map.
    + destruct (assign_first tid tasks_per_week week count rest)
        as [[r w] c] eqn:R.
      intros [= <- <- <-].
      destruct (IH _ _ _ _ _ Hw R) as [Hb [F U]].
      split; [exact Hb|]. split.
      * constructor; [now left | exact F].
      * intros N. apply NoDup_cons_iff in N as [_ N].
        constructor; [right; now split | now apply U].
Qed.

Lemma spread_spec (incomplete : list Task) :
  forall ts week count,
    lo <= week <= 8 ->
    Forall2 (fun t t' => t' = t \/ placed lo t t') ts
            (spread tasks_per_week incomplete ts week count)
    /\ (unique_ids ts ->
        Forall2 (fun t t' =>
                   (In t.(id) (map id incomplete) /\ placed lo t t')
                   \/ (~ In t.(id) (map id incomplete) /\ t' = t))
                ts (spread tasks_per_week incomplete ts week count)).
Proof.
  induction incomplete as [|task more IH]; intros ts week count Hw; simpl.
  - split.
    + apply Forall2_weaken with (R := eq); [|apply Forall2_same].
      intros x y _ ->. now left.
    + intros _. apply Forall2_weaken with (R := eq); [|apply Forall2_same].
      intros x y _ ->. right. split; [tauto | reflexivity].
  - destruct (assign_first task.(id) tasks_per_week week count ts)
      as [[ts1 w1] c1] eqn:A.
    destruct (@assign_first_spec _ _ _ _ _ _ _ Hw A) as [Hw1 [F1 U1]].
    destruct (IH ts1 w1 c1 Hw1) as [F2 U2].
    assert (Ids : map id ts1 = map id ts).
    { apply same_ids with (R := fun t t' => t' = t \/ placed lo t t');
        [apply placed_id | exact F1]. }
    split.
    + refine (@Forall2_chain _ _ _ _ _ _ _ _ _ _ F1 F2).
      intros x y z _ [->|[w [Hb ->]]] [->|[w' [Hb' ->]]].
      * now left.
      * right. now exists w'.
      * right. now exists w.
      * right. exists w'. now rewrite set_week_twice.
    + intros N.
      assert (N1 : unique_ids ts1) by (unfold unique_ids; now rewrite Ids).
      refine (@Forall2_chain _ _ _ _ _ _ _ _ _ _ (U1 N) (U2 N1)).
      intros x y z _ [[Ex [w [Hb ->]]]|[Ex ->]] [[Hin P]|[Hin ->]].
      * left. split; [now left|]. destruct P as [w' [Hb' ->]].
        exists w'. now rewrite set_week_twice.
      * left. split; [now left | now exists w].
      * left. split; [now right | exact P].
      * right. split; [|reflexivity]. intros [E|Hin']; [|tauto].
        apply Ex. now symmetry.
Qed.

End Redistribution.

(** *** The handler *)

Lemma redistribute_spec (cw : Z) (ts : list Task) :
  1 <= cw <= 8 ->
  (forall t, In t ts -> t.(completed) = false ->
     cw <= t.(week) /\ hashable t.(priority) = true) ->
  exists final,
    redistribute cw ts = Ok final
    /\ Forall2 (fun t t' => t' = t \/ placed cw t t') ts final
    /\ (unique_ids ts ->
        Forall2 (fun t t' => if t.(completed) then t' = t
                             else placed cw t t') ts final).
Proof.
  intros Hcw H. unfold redistribute.
  set (incomplete := filter (is_pending cw) ts).
  assert (Hin : forall t, In t incomplete <->
                          In t ts /\ t.(completed) = false).
  { intros t. unfold incomplete. rewrite filter_In. unfold is_pending.
    split; intros [Ht P]; (split; [exact Ht|]).
    - now destruct t.(completed).
    - rewrite P. simpl. apply Z.geb_le. now apply H. }
  destruct ((8 - cw + 1 >? 0) && (Z.of_nat (List.length incomplete) >? 0))
    eqn:Go.
  - destruct (sort_incomplete_ok incomplete) as [sorted [S Hs]].
    { intros t Ht. apply Hin in Ht as [Ht P]. now apply H. }
    rewrite S. cbn [bind].
    set (tpw := Z.max 3 _).
    assert (Hw : cw <= cw <= 8) by lia.
    destruct (@spread_spec cw tpw sorted ts cw 0 Hw) as [F U].
    eexists. split; [reflexivity|]. split; [exact F|].
    intros N. apply Forall2_weaken with (2 := U N).
    intros t t' Ht [[Hid P]|[Hno ->]].
    + destruct t.(completed) eqn:C; [|exact P]. exfalso.
      apply in_map_iff in Hid as [u [Eu Hu]].
      apply Hs, Hin in Hu as [Hu Cu].
      rewrite (@in_unique_id ts u t N Hu Ht Eu) in Cu. congruence.
    + destruct t.(completed) eqn:C; [reflexivity|]. exfalso. apply Hno.
      apply in_map. apply Hs. apply Hin. now split.
  - assert (E : incomplete = []).
    { apply andb_false_iff in Go as [Go|Go]; [exfalso; revert Go|].
      - destruct (Z.gtb_spec (8 - cw + 1) 0); [discriminate | lia].
      - destruct incomplete; [reflexivity|]. simpl in Go.
        destruct (Z.gtb_spec (Z.pos (Pos.of_succ_nat (List.length incomplete)))
                             0); [discriminate | lia]. }
    exists ts. split; [reflexivity|]. split.
    + apply Forall2_weaken with (R := eq); [|apply Forall2_same].
      intros x y _ ->. now left.
    + intros _. apply Forall2_weaken with (R := eq); [|apply Forall2_same].
      intros x y Hx <-. destruct x.(completed) eqn:C; [reflexivity|].
      exfalso. assert (Hx' : In x incomplete) by (apply Hin; now split).
      now rewrite E in Hx'.
Qed.

Lemma set_week_same (t : Task) : set_week t t.(week) = t.
Proof. now destruct t. Qed.

(** C7, amended. For a store that follows the data model (every task has
    a string id, an integer week and a boolean [completed], which is what
    [Task] holds): whenever the sort can be made (the priority of every
    incomplete task can be hashed), [auto_adjust] returns and no incomplete
    task is left before the current week. When moreover the ids are unique,
    every incomplete task ends in a week between the current week and 8,
    and a completed task is untouched: it keeps its week, also one beyond 8.
    Only the week of a task changes. *)
Theorem auto_adjust_bounds (today : Z) (data : ProjectState) :
  (forall t, In t data.(tasks) -> t.(completed) = false ->
     hashable t.(priority) = true) ->
  exists data',
    auto_adjust today data
    = (data',
       Ok (mkAdjustResponse "adjusted"
             (current_week (today - data.(project_start))) data'))
    /\ (forall t', In t' data'.(tasks) -> t'.(completed) = false ->
          current_week (today - data.(project_start)) <= t'.(week))
    /\ (unique_ids data.(tasks) ->
        (forall t', In t' data'.(tasks) -> t'.(completed) = false ->
           t'.(week) <= TOTAL_WEEKS)
        /\ Forall2 (fun t t' => t' = set_week t t'.(week)
                                /\ (t.(completed) = true -> t' = t))
                   data.(tasks) data'.(tasks)).
Proof.
  intros Hhash. unfold auto_adjust.
  set (cw := current_week (today - data.(project_start))).
  assert (Hcw : 1 <= cw <= 8) by apply current_week_range.
  set (ts0 := data.(tasks)) in *.
  set (pull := fun t => if is_overdue cw t then set_week t cw else t).
  assert (F0 : Forall2 (fun t t1 => t1 = pull t) ts0 (pull_forward cw ts0))
    by apply Forall2_map_right.
  assert (Hpull : forall t, (pull t).(id) = t.(id)
                            /\ (pull t).(completed) = t.(completed)
                            /\ (pull t).(priority) = t.(priority)
                            /\ pull t = set_week t (pull t).(week)
                            /\ (t.(completed) = true -> pull t = t)
                            /\ (t.(completed) = false -> cw <= (pull t).(week))).
  { intros t. unfold pull, is_overdue.
    destruct t.(completed) eqn:C; simpl.
    - rewrite C, set_week_same. repeat split; auto. discriminate.
    - destruct (Z.ltb_spec t.(week) cw); simpl;
        rewrite ?C, ?set_week_same; repeat split; auto; try discriminate; lia. }
  destruct (@redistribute_spec cw (pull_forward cw ts0) Hcw)
    as [final [R [F U]]].
  { intros t1 Ht1 C1.
    destruct (Forall2_in_right t1 F0 Ht1) as [t [Ht ->]].
    destruct (Hpull t) as [_ [Ec [Ep [_ [_ Hlo]]]]].
    rewrite Ec in C1. rewrite Ep. split; [now apply Hlo | now apply Hhash]. }
  rewrite R. eexists. split; [reflexivity|]. simpl tasks. split.
  - intros t' Ht' C'.
    destruct (Forall2_in_right t' F Ht') as [t1 [Ht1 Rel]].
    destruct (Forall2_in_right t1 F0 Ht1) as [t [Ht ->]].
    destruct (Hpull t) as [_ [Ec [_ [_ [_ Hlo]]]]].
    destruct Rel as [->|[w [Hw ->]]]; [|simpl; lia].
    apply Hlo. now rewrite <- Ec.
  - intros N.
    assert (N1 : unique_ids (pull_forward cw ts0)).
    { unfold unique_ids.
      rewrite (same_ids (R := fun t t1 => t1 = pull t) (ts := ts0)); auto.
      intros t t1 ->. apply Hpull. }
    specialize (U N1). split.
    + intros t' Ht' C'.
      destruct (Forall2_in_right t' U Ht') as [t1 [Ht1 Rel]].
      destruct t1.(completed) eqn:C1.
      * subst t'. congruence.
      * destruct Rel as [w [Hw ->]]. simpl. unfold TOTAL_WEEKS. lia.
    + refine (@Forall2_chain _ _ _ _ _ _ _ _ _ _ F0 U).
      intros t t1 t' _ -> Rel.
      destruct (Hpull t) as [_ [Ec [_ [Ew [Hdone _]]]]].
      rewrite Ec in Rel. destruct t.(completed) eqn:C.
      * subst t'. rewrite (Hdone eq_refl). split; [|reflexivity].
        now rewrite set_week_same.
      * destruct Rel as [w [Hw ->]]. split; [|discriminate].
        rewrite Ew. reflexivity.
Qed.

Lemma auto_adjust_bounds_witness :
  exists data',
    auto_adjust 739635 overdue_store
    = (data', Ok (mkAdjustResponse "adjusted" 3 data'))
    /\ (forall t', In t' data'.(tasks) -> t'.(completed) = false ->
          3 <= t'.(week))
    /\ (unique_ids overdue_store.(tasks) ->
        (forall t', In t' data'.(tasks) -> t'.(completed) = false ->
           t'.(week) <= TOTAL_WEEKS)
        /\ Forall2 (fun t t' => t' = set_week t t'.(week)
                                /\ (t.(completed) = true -> t' = t))
                   overdue_store.(tasks) data'.(tasks)).
Proof.
  apply (auto_adjust_bounds 739635 overdue_store).
  simpl. intros t [<-|[<-|[<-|[]]]]; reflexivity.
Defined.

(** C7 as stated fails: a completed task in week 12 is left where it is, so
    a task's week exceeds 8 after the redistribution. *)
Lemma completed_task_stays_beyond_week_8 :
  exists data' r,
    auto_adjust 739635 late_store = (data', Ok r)
    /\ data'.(tasks) = [demo_task "a" 3 false; demo_task "b" 12 true]
    /\ ~ (forall t', In t' data'.(tasks) -> t'.(week) <= TOTAL_WEEKS).
Proof.
  eexists. eexists. split; [reflexivity|]. split; [reflexivity|].
  intros H. specialize (H (demo_task "b" 12 true)).
  simpl in H. unfold TOTAL_WEEKS in H.
  assert (12 <= 8) by (apply H; right; now left). lia.
Qed.

(* ================================================================== *)
(** ** The blocks of a reply *)
(* ================================================================== *)

Lemma append_assoc (a b c : string) :
  ((a ++ b) ++ c = a ++ (b ++ c))%string.
Proof. induction a as [|x a IH]; simpl; [reflexivity | now rewrite IH]. Qed.

Lemma length_append (a b : string) :
  length (a ++ b) = (length a + length b)%nat.
Proof. induction a as [|x a IH]; simpl; [reflexivity | now rewrite IH]. Qed.

Lemma no_fence_tail (c : ascii) (s : string) :
  no_fence (String c s) = true -> no_fence s = true.
Proof.
  intros H. change (no_fence (String c s))
    with (negb (prefix fence (String c s)) && no_fence s) in H.
  now apply andb_true_iff in H as [_ H].
Qed.

Lemma no_fence_head (s : string) :
  no_fence s = true -> prefix fence s = false.
Proof.
  destruct s as [|c s]; [reflexivity|]. intros H.
  change (no_fence (String c s))
    with (negb (prefix fence (String c s)) && no_fence s) in H.
  apply andb_true_iff in H as [H _]. now apply negb_true_iff in H.
Qed.

Lemma no_fence_lstrip (s : string) :
  no_fence s = true -> no_fence (lstrip s) = true.
Proof.
  induction s as [|c s IH]; intros H; [exact H|]. simpl lstrip.
  destruct (is_space c); [|exact H]. apply IH. exact (@no_fence_tail _ _ H).
Qed.

Lemma prefix_cons (a b : ascii) (s t : string) :
  prefix (String a s) (String b t)
  = if Ascii.eqb a b then prefix s t else false.
Proof.
  change (prefix (String a s) (String b t))
    with (if ascii_dec a b then prefix s t else false).
  destruct (ascii_dec a b) as [->|N].
  - now rewrite Ascii.eqb_refl.
  - apply Ascii.eqb_neq in N. now rewrite N.
Qed.

Lemma prefix_empty_right (a : ascii) (s : string) :
  prefix (String a s) "" = false.
Proof. reflexivity. Qed.

Lemma prefix_empty_left (t : string) : prefix "" t = true.
Proof. now destruct t. Qed.

Ltac prefix_steps :=
  repeat (rewrite prefix_cons || rewrite prefix_empty_right
          || rewrite prefix_empty_left).

(** A body that holds no closing marker cannot make one with the line
    break that follows it. *)
Lemma no_fence_before_break (x y : string) :
  prefix fence x = false -> prefix fence (x ++ nl ++ y) = false.
Proof.
  unfold fence, nl.
  destruct x as [|a [|b [|c x]]]; cbn [append]; prefix_steps;
    repeat match goal with
           | |- context [Ascii.eqb "`" ?q] =>
               is_var q; destruct (Ascii.eqb "`" q)
           end; cbn; auto.
Qed.

Lemma lazy_body_unfold (s : string) :
  lazy_body s
  = if prefix (nl ++ fence) s then Some ("", drop 4 s)
    else if prefix fence s then Some ("", drop 3 s)
    else match s with
         | EmptyString => None
         | String c s' =>
             match lazy_body s' with
             | Some (g, r) => Some (String c g, r)
             | None => None
             end
         end.
Proof. now destruct s. Qed.

Lemma lazy_body_block (x rest : string) :
  no_fence x = true ->
  lazy_body (x ++ nl ++ fence ++ rest) = Some (x, rest).
Proof.
  induction x as [|c x IH]; intros H.
  - rewrite lazy_body_unfold. unfold nl, fence. cbn [append].
    prefix_steps. reflexivity.
  - pose proof (@no_fence_tail _ _ H) as H'.
    pose proof (@no_fence_before_break _ (fence ++ rest)
                  (@no_fence_head _ H)) as P2.
    pose proof (@no_fence_before_break _ (fence ++ rest)
                  (@no_fence_head _ H')) as P2'.
    rewrite lazy_body_unfold. rewrite P2.
    change ((String c x ++ nl ++ fence ++ rest)%string)
      with (String c (x ++ nl ++ fence ++ rest)).
    change (nl ++ fence)%string with (String "010" fence).
    rewrite prefix_cons.
    destruct (Ascii.eqb "010" c); [rewrite P2'|]; now rewrite (IH H').
Qed.

Lemma lstrip_break (y : string) : lstrip (nl ++ y) = lstrip y.
Proof. reflexivity. Qed.

Lemma lazy_body_fence (rest : string) :
  lazy_body (fence ++ rest) = Some ("", rest).
Proof.
  rewrite lazy_body_unfold. unfold nl, fence. cbn [append].
  prefix_steps. reflexivity.
Qed.

(** After the opening marker and its line break: the group is the body
    without the white space it starts with. *)
Lemma lazy_body_after_space (b rest : string) :
  no_fence b = true ->
  lazy_body (lstrip (b ++ nl ++ fence ++ rest)) = Some (lstrip b, rest).
Proof.
  induction b as [|c b IH]; intros H.
  - change (lstrip ("" ++ nl ++ fence ++ rest)) with (fence ++ rest)%string.
    apply lazy_body_fence.
  - change (lstrip (String c b ++ nl ++ fence ++ rest))
      with (if is_space c then lstrip (b ++ nl ++ fence ++ rest)
            else (String c b ++ nl ++ fence ++ rest)%string).
    change (lstrip (String c b))
      with (if is_space c then lstrip b else String c b).
    destruct (is_space c).
    + apply IH. exact (@no_fence_tail _ _ H).
    + now apply lazy_body_block.
Qed.

Lemma match_block_block (b rest : string) :
  no_fence b = true ->
  match_block (block b ++ rest) = Some (lstrip b, rest).
Proof.
  intros H. unfold block. rewrite !append_assoc.
  unfold match_block, opener. cbn [append]. prefix_steps.
  cbn [Ascii.eqb Bool.eqb drop]. rewrite lstrip_break.
  now apply lazy_body_after_space.
Qed.

Lemma match_block_plain (c : ascii) (s : string) :
  Ascii.eqb c "`" = false -> match_block (String c s) = None.
Proof.
  intros H. unfold match_block, opener. rewrite prefix_cons.
  now rewrite Ascii.eqb_sym, H.
Qed.

Lemma findall_from_skip (x rest : string) :
  findall_from (length x) (x ++ rest) = findall_from 0 rest.
Proof. induction x as [|c x IH]; simpl; [reflexivity | exact IH]. Qed.

Lemma findall_from_match (c : ascii) (x rest g : string) :
  match_block (String c (x ++ rest)) = Some (g, rest) ->
  findall_from 0 (String c (x ++ rest)) = g :: findall_from 0 rest.
Proof.
  intros M.
  change (findall_from 0 (String c (x ++ rest)))
    with (match match_block (String c (x ++ rest)) with
          | Some (g, r) =>
              g :: findall_from
                     (length (String c (x ++ rest)) - length r - 1)
                     (x ++ rest)
          | None => findall_from 0 (x ++ rest)
          end).
  rewrite M. f_equal.
  replace (length (String c (x ++ rest)) - length rest - 1)%nat
    with (length x); [apply findall_from_skip|].
  change (length (String c (x ++ rest))) with (S (length (x ++ rest))).
  rewrite length_append. lia.
Qed.

Lemma findall_from_plain (pre rest : string) :
  plain pre = true ->
  findall_from 0 (pre ++ rest) = findall_from 0 rest.
Proof.
  induction pre as [|c pre IH]; intros H; [reflexivity|].
  simpl in H. apply andb_true_iff in H as [Hc H].
  apply negb_true_iff in Hc.
  change (findall_from 0 (String c pre ++ rest))
    with (match match_block (String c (pre ++ rest)) with
          | Some (g, r) =>
              g :: findall_from
                     (length (String c (pre ++ rest)) - length r - 1)
                     (pre ++ rest)
          | None => findall_from 0 (pre ++ rest)
          end).
  rewrite (@match_block_plain c (pre ++ rest) Hc). now apply IH.
Qed.

Lemma findall_from_block (pre b rest : string) :
  plain pre = true -> no_fence b = true ->
  findall_from 0 (pre ++ block b ++ rest)
  = lstrip b :: findall_from 0 rest.
Proof.
  intros Hp Hb. rewrite (@findall_from_plain pre _ Hp).
  change (block b ++ rest)%string
    with (String "`" (("``task_update" ++ nl ++ b ++ nl ++ fence) ++ rest)).
  apply findall_from_match.
  exact (@match_block_block b rest Hb).
Qed.

Lemma lstrip_twice (s : string) : lstrip (lstrip s) = lstrip s.
Proof.
  induction s as [|c s IH]; [reflexivity|]. simpl.
  destruct (is_space c) eqn:E; [exact IH|]. simpl. now rewrite E.
Qed.

Lemma strip_lstrip (s : string) : strip (lstrip s) = strip s.
Proof. unfold strip. now rewrite lstrip_twice. Qed.

Lemma findall_plain (s : string) : plain s = true -> findall s = [].
Proof.
  intros H. unfold findall.
  replace s with (s ++ "")%string
    by (clear; induction s as [|c s IH]; simpl; [reflexivity|now rewrite IH]).
  now rewrite (@findall_from_plain s "" H).
Qed.

(** A reply with three blocks between stretches of plain text: [findall]
    gives the three bodies, in their order. *)
Lemma findall_three_blocks (pre s1 s2 post b1 b2 b3 : string) :
  plain pre = true -> plain s1 = true -> plain s2 = true ->
  plain post = true ->
  no_fence b1 = true -> no_fence b2 = true -> no_fence b3 = true ->
  findall (pre ++ block b1 ++ s1 ++ block b2 ++ s2 ++ block b3 ++ post)
  = [lstrip b1; lstrip b2; lstrip b3].
Proof.
  intros P0 P1 P2 P3 N1 N2 N3. unfold findall.
  rewrite (@findall_from_block pre b1 _ P0 N1).
  rewrite (@findall_from_block s1 b2 _ P1 N2).
  rewrite (@findall_from_block s2 b3 _ P2 N3).
  fold (findall post). now rewrite (@findall_plain post P3).
Qed.

(** ** Well-formed updates *)

Lemma move_loop_ok (tid nw : json) (z : Z) (ts : list Task) :
  int nw = Ok z -> exists r, move_loop tid nw ts = Ok r.
Proof.
  intros H. induction ts as [|t rest [r IH]]; simpl; [eauto|].
  destruct (eq_str tid t.(id)).
  - rewrite H. simpl. eauto.
  - rewrite IH. simpl. eauto.
Qed.

Ltac applied :=
  eexists; split; [reflexivity|]; split; [reflexivity|];
  first [ exists []; simpl; now rewrite app_nil_r
        | eexists; reflexivity ].

(** A well-formed update is applied or skipped without an exception; the
    loop keeps [task_updates] and only adds to what was printed. *)
Lemma well_formed_applies (clock : nat -> instant) (cw : Z) (update : json)
    (st : Run) :
  well_formed update = true ->
  exists st',
    apply_update clock cw update st = Ok st'
    /\ st'.(task_updates) = st.(task_updates)
    /\ exists more, st'.(printed) = st.(printed) ++ more.
Proof.
  destruct update as [| | | | |l|items]; try discriminate. simpl.
  intros W. destruct (known_action (action_of items)) eqn:K.
  - apply known_action_cases in K as [K|[K|[K|K]]].
    + rewrite (apply_move clock cw items st K). cbv zeta. rewrite K in W.
      destruct (lookup "new_week" items) as [v|] eqn:L.
      * assert (E : field items "new_week" JNull = v)
          by (unfold field; now rewrite L).
        rewrite E. unfold coercible in W.
        destruct (int v) as [z|] eqn:I; [|discriminate].
        destruct (_ && _); [|applied].
        destruct (@move_loop_ok (field items "task_id" JNull) v z
                    st.(cur_tasks) I) as [[ts|] ->]; simpl; applied.
      * assert (E : field items "new_week" JNull = JNull)
          by (unfold field; now rewrite L).
        rewrite E. simpl. rewrite andb_false_r. applied.
    + rewrite (apply_complete clock cw items st K). cbv zeta.
      destruct (truthy _); [|applied]. destruct (complete_loop _ _); applied.
    + rewrite (apply_add clock cw items st K).
      assert (M : eq_str (action_of items) "move" = false).
      { apply eq_str_true in K. now rewrite K. }
      rewrite M, K in W.
      destruct (lookup "week" items) as [v|] eqn:L.
      * assert (E : field items "week" (JInt cw) = v)
          by (unfold field; now rewrite L).
        rewrite E. unfold coercible in W. destruct (int v); [|discriminate].
        simpl. applied.
      * assert (E : field items "week" (JInt cw) = JInt cw)
          by (unfold field; now rewrite L).
        rewrite E. simpl. applied.
    + rewrite (apply_delete clock cw items st K). cbv zeta.
      destruct (truthy _); applied.
  - rewrite apply_unknown by exact K. applied.
Qed.

(** ** A malformed block between two well-formed ones *)

Section ParserFacts.

Variable json_loads : string -> result json.
Variable w : World.
Variable cw : Z.

(** X28. A reply that holds three blocks, the second with a body that
    [json.loads] refuses with [JSONDecodeError] and the other two with
    well-formed updates: the loop raises nothing, prints the failure of the
    second block, and [task_updates] receives exactly the two well-formed
    updates, in the order of the reply. *)
Theorem malformed_block_is_dropped (pre s1 s2 post b1 b2 b3 : string)
    (d1 d3 : json) (st : Run) :
  plain pre = true -> plain s1 = true -> plain s2 = true ->
  plain post = true ->
  no_fence b1 = true -> no_fence b2 = true -> no_fence b3 = true ->
  json_loads (strip b1) = Ok d1 ->
  json_loads (strip b2) = Raise JSONDecodeError ->
  json_loads (strip b3) = Ok d3 ->
  well_formed d1 = true -> well_formed d3 = true ->
  exists st',
    process_reply json_loads w cw
      (pre ++ block b1 ++ s1 ++ block b2 ++ s2 ++ block b3 ++ post) st
    = Ok st'
    /\ st'.(task_updates) = st.(task_updates) ++ [d1; d3]
    /\ In (ParseFailed (lstrip b2)) st'.(printed).
Proof.
  intros P0 P1 P2 P3 N1 N2 N3 D1 D2 D3 W1 W3.
  unfold process_reply.
  rewrite (@findall_three_blocks pre s1 s2 post b1 b2 b3) by assumption.
  cbn [map]. rewrite !strip_lstrip, D1, D2, D3.
  cbn [run_updates]. rewrite step_decoded.
  destruct (well_formed_applies w.(clock) cw d1 (recorded d1 st) W1)
    as [st1 [A1 [U1 [m1 O1]]]].
  rewrite A1. cbn [bind]. unfold step at 1. cbn [snd fst bind].
  rewrite step_decoded.
  match goal with
  | |- context [apply_update _ _ d3 ?s] =>
      destruct (well_formed_applies w.(clock) cw d3 s W3)
        as [st3 [A3 [U3 [m3 O3]]]]
  end.
  rewrite A3. cbn [bind]. exists st3. split; [reflexivity|]. split.
  - rewrite U3. simpl. rewrite U1. simpl. now rewrite <- app_assoc.
  - rewrite O3. simpl. apply in_or_app. left. apply in_or_app. right.
    now left.
Qed.

End ParserFacts.

Lemma malformed_block_is_dropped_witness :
  exists st',
    process_reply toy_loads demo_world 1
      ("On it." ++ block "<move a to 2>" ++ " then " ++ block "{oops"
       ++ " and " ++ block "<complete a>" ++ " Done.")
      (demo_run [demo_task "a" 1 false])
    = Ok st'
    /\ st'.(task_updates)
       = [] ++ [JDict (move_a_to (JInt 2)); JDict complete_a]
    /\ In (ParseFailed (lstrip "{oops")) st'.(printed).
Proof.
  apply (@malformed_block_is_dropped toy_loads demo_world 1
           "On it." " then " " and " " Done."
           "<move a to 2>" "{oops" "<complete a>"
           (JDict (move_a_to (JInt 2))) (JDict complete_a)
           (demo_run [demo_task "a" 1 false]));
    reflexivity.
Defined.

(** C6, the code at its failing input. The handler of the loop catches
    [JSONDecodeError] only. A middle block whose body is the number 42
    decodes and then has no [get]; one whose body is an integer literal of
    4301 digits makes [json.loads] raise a plain [ValueError]; one that is
    nested too deep makes it raise [RecursionError]. In each case the
    exception leaves the loop and the block that follows is not looked
    at; [chat] then answers with [error] true, no task update and the
    store as it was loaded, so the well-formed update before the block is
    lost too. *)
Theorem undecoded_block_aborts_batch :
  process_reply sample_loads demo_world 1 (three_blocks "42")
    (demo_run [demo_task "a" 1 false])
  = Raise AttributeError
  /\ process_reply sample_loads demo_world 1 (three_blocks long_integer)
       (demo_run [demo_task "a" 1 false])
     = Raise ValueError
  /\ (forall clock cw m more st,
        run_updates clock cw ((m, Raise RecursionError) :: more) st
        = Raise RecursionError)
  /\ chat sample_loads (fun _ => "'int' object has no attribute 'get'")
          (fun _ _ _ => "context")
          (answering_world (three_blocks "42"))
          (JDict [("message", JStr "move a, then finish it")])
          (demo_store [demo_task "a" 1 false])
     = (demo_store [demo_task "a" 1 false],
        Ok (mkChatResponse
              "Error communicating with AI: 'int' object has no attribute 'get'"
              [] true)).
Proof.
  split; [vm_compute; reflexivity|].
  split; [vm_compute; reflexivity|].
  split; [reflexivity|].
  vm_compute. reflexivity.
Qed.

(* ================================================================== *)
(** * Further properties *)
(* ================================================================== *)

(** ** PATCH with an id that a task has *)

Lemma update_loop_matched (tid : string) (u : TaskPatch) (pre post : list Task)
    (t : Task) :
  (forall x, In x pre -> x.(id) <> tid) ->
  t.(id) = tid ->
  forall bound,
    update_loop tid u (pre ++ t :: post) bound
    = (pre ++ task_update t u :: post, Some (task_update t u)).
Proof.
  intros Hpre Ht. induction pre as [|x pre IH]; intros bound; simpl.
  - rewrite <- Ht, String.eqb_refl. reflexivity.
  - destruct (String.eqb_spec x.(id) tid) as [E|_].
    + exfalso. apply (Hpre x); [now left | exact E].
    + rewrite IH; [reflexivity|]. intros y Hy. apply Hpre. now right.
Qed.

(** X1. PATCH with an id that a task has: the first task with that id, and
    only that one, is merged with the body; the tasks before and after it
    stay, and the response carries the merged task. *)
Theorem update_task_matched (tid : string) (u : TaskPatch)
    (data : ProjectState) (pre post : list Task) (t : Task) :
  data.(tasks) = pre ++ t :: post ->
  (forall x, In x pre -> x.(id) <> tid) ->
  t.(id) = tid ->
  update_task tid u data
  = (set_tasks data (pre ++ task_update t u :: post),
     Ok (mkUpdateResponse "updated" (task_update t u))).
Proof.
  intros E Hpre Ht. unfold update_task. rewrite E.
  now rewrite (@update_loop_matched tid u pre post t Hpre Ht).
Qed.

Lemma update_task_matched_witness :
  update_task "b" (mkPatch None None (Some 5) (Some true) None None None)
    (demo_store [demo_task "a" 1 false; demo_task "b" 2 false;
                 demo_task "b" 3 false])
  = (demo_store [demo_task "a" 1 false; demo_task "b" 5 true;
                 demo_task "b" 3 false],
     Ok (mkUpdateResponse "updated" (demo_task "b" 5 true))).
Proof.
  apply (@update_task_matched "b"
           (mkPatch None None (Some 5) (Some true) None None None)
           (demo_store [demo_task "a" 1 false; demo_task "b" 2 false;
                        demo_task "b" 3 false])
           [demo_task "a" 1 false] [demo_task "b" 3 false]
           (demo_task "b" 2 false)).
  - reflexivity.
  - simpl. intros x [<-|[]]. discriminate.
  - reflexivity.
Defined.

Lemma update_loop_ids (tid : string) (u : TaskPatch) (ts : list Task) :
  u.(p_id) = None ->
  forall bound, map id (fst (update_loop tid u ts bound)) = map id ts.
Proof.
  intros Hu. induction ts as [|t rest IH]; intros bound; simpl;
    [reflexivity|].
  destruct (String.eqb t.(id) tid).
  - simpl. unfold task_update. now rewrite Hu.
  - specialize (IH (Some t)).
    destruct (update_loop tid u rest (Some t)) as [r b]. simpl in *.
    now rewrite IH.
Qed.

(** X2. A PATCH whose body carries no [id] keeps the ids of the tasks and
    their order, whatever id is requested; unique ids stay unique. *)
Theorem update_task_keeps_ids (tid : string) (u : TaskPatch)
    (data : ProjectState) :
  u.(p_id) = None ->
  map id (fst (update_task tid u data)).(tasks) = map id data.(tasks)
  /\ (unique_ids data.(tasks) ->
      unique_ids (fst (update_task tid u data)).(tasks)).
Proof.
  intros Hu.
  assert (E : map id (fst (update_task tid u data)).(tasks)
              = map id data.(tasks)).
  { unfold update_task.
    pose proof (@update_loop_ids tid u data.(tasks) Hu None) as H.
    destruct (update_loop tid u data.(tasks) None) as [ts b]. exact H. }
  split; [exact E|]. unfold unique_ids. now rewrite E.
Qed.

Lemma update_task_keeps_ids_witness :
  map id (fst (update_task "a"
                 (mkPatch None None (Some 5) None None None None)
                 (demo_store [demo_task "a" 1 false; demo_task "b" 2 false])))
           .(tasks)
  = ["a"; "b"].
Proof.
  apply (@update_task_keeps_ids "a"
           (mkPatch None None (Some 5) None None None None)
           (demo_store [demo_task "a" 1 false; demo_task "b" 2 false])).
  reflexivity.
Defined.

(** ** The current week *)

(** X3. The current week never goes back as days pass: it is 1 up to the
    sixth day (and before the start), goes up by one every seven days, and
    stays at 8 from day 49 on. *)
Theorem current_week_monotone (d1 d2 : Z) :
  d1 <= d2 ->
  current_week d1 <= current_week d2
  /\ (d2 < 7 -> current_week d2 = 1)
  /\ (0 <= d1 -> current_week (d1 + 7) = Z.min 8 (current_week d1 + 1))
  /\ (49 <= d1 -> current_week d1 = 8).
Proof.
  intros H. unfold current_week.
  assert (M : d1 / 7 <= d2 / 7) by (apply Z.div_le_mono; lia).
  assert (P : 0 <= d1 -> 0 <= d1 / 7) by (intros; apply Z.div_pos; lia).
  assert (L : d2 < 7 -> d2 / 7 <= 0).
  { intros. assert (d2 / 7 < 1) by (apply Z.div_lt_upper_bound; lia). lia. }
  assert (S : (d1 + 7) / 7 = d1 / 7 + 1).
  { replace (d1 + 7) with (d1 + 1 * 7) by lia. apply Z.div_add. lia. }
  assert (U : 49 <= d1 -> 7 <= d1 / 7).
  { intros. apply Z.div_le_lower_bound; lia. }
  repeat split; intros; try rewrite S; try specialize (P ltac:(assumption));
    try specialize (L ltac:(assumption));
    try specialize (U ltac:(assumption)); lia.
Qed.

Lemma current_week_monotone_witness :
  current_week 13 <= current_week 14
  /\ (14 < 7 -> current_week 14 = 1)
  /\ (0 <= 13 -> current_week (13 + 7) = Z.min 8 (current_week 13 + 1))
  /\ (49 <= 13 -> current_week 13 = 8).
Proof. apply (@current_week_monotone 13 14). lia. Defined.

(** ** Auto-adjust: the edges *)

Lemma keys_of_unhashable (ts : list Task) :
  (exists t, In t ts /\ hashable t.(priority) = false) ->
  keys_of ts = Raise TypeError.
Proof.
  induction ts as [|a ts IH]; intros [t [Hin Ht]]; [contradiction|].
  simpl. destruct Hin as [<-|Hin].
  - destruct a.(priority); simpl in *; try discriminate; reflexivity.
  - rewrite IH by (exists t; now split).
    destruct (priority_order_get a.(priority)) as [r|e] eqn:P;
      [reflexivity|].
    destruct a.(priority); simpl in P; try discriminate;
      injection P as <-; reflexivity.
Qed.

Lemma pull_forward_in (cw : Z) (ts : list Task) (t : Task) :
  In t ts -> t.(completed) = false ->
  exists t', In t' (filter (is_pending cw) (pull_forward cw ts))
             /\ t'.(priority) = t.(priority).
Proof.
  intros Hin C.
  exists (if is_overdue cw t then set_week t cw else t). split.
  - apply filter_In. split.
    + unfold pull_forward. apply in_map_iff. now exists t.
    + unfold is_overdue, is_pending. rewrite C. simpl.
      destruct (Z.ltb_spec t.(week) cw); simpl; rewrite C; simpl;
        apply Z.geb_le; lia.
  - now destruct (is_overdue cw t).
Qed.

(** X4. When an incomplete task has a list or an object as priority, the
    sort key cannot be computed: [auto_adjust] raises [TypeError] and the
    store stays as it was loaded, overdue tasks included. *)
Theorem auto_adjust_unhashable_priority (today : Z) (data : ProjectState) :
  (exists t, In t data.(tasks) /\ t.(completed) = false
             /\ hashable t.(priority) = false) ->
  auto_adjust today data = (data, Raise TypeError).
Proof.
  intros [t [Hin [C Hp]]]. unfold auto_adjust.
  set (cw := current_week (today - data.(project_start))).
  assert (Hcw : 1 <= cw <= 8) by apply current_week_range.
  destruct (@pull_forward_in cw data.(tasks) t Hin C) as [t' [Ht' Ep]].
  unfold redistribute.
  set (incomplete := filter (is_pending cw) (pull_forward cw data.(tasks)))
    in *.
  assert (G : (8 - cw + 1 >? 0)
              && (Z.of_nat (List.length incomplete) >? 0) = true).
  { apply andb_true_iff. split.
    - destruct (Z.gtb_spec (8 - cw + 1) 0); [reflexivity | lia].
    - destruct incomplete; [contradiction|]. reflexivity. }
  rewrite G. unfold sort_incomplete.
  rewrite keys_of_unhashable; [reflexivity|].
  exists t'. split; [exact Ht'|]. now rewrite Ep.
Qed.

Lemma auto_adjust_unhashable_priority_witness :
  auto_adjust 739635
    (mkState 739621 739680
       [demo_task "a" 1 false;
        mkTask "b" (JStr "t") 5 false (JList [JStr "high"]) JNull (JStr "")]
       [] [] [])
  = (mkState 739621 739680
       [demo_task "a" 1 false;
        mkTask "b" (JStr "t") 5 false (JList [JStr "high"]) JNull (JStr "")]
       [] [] [],
     Raise TypeError).
Proof.
  apply auto_adjust_unhashable_priority.
  exists (mkTask "b" (JStr "t") 5 false (JList [JStr "high"]) JNull (JStr "")).
  split; [right; now left|]. split; reflexivity.
Defined.

(** X5. When every task is completed, [auto_adjust] changes nothing: it
    writes the store back as it was and reports the current week. *)
Theorem auto_adjust_all_completed (today : Z) (data : ProjectState) :
  (forall t, In t data.(tasks) -> t.(completed) = true) ->
  auto_adjust today data
  = (data,
     Ok (mkAdjustResponse "adjusted"
           (current_week (today - data.(project_start))) data)).
Proof.
  intros H. unfold auto_adjust.
  set (cw := current_week (today - data.(project_start))).
  assert (P : pull_forward cw data.(tasks) = data.(tasks)).
  { unfold pull_forward. rewrite <- (map_id data.(tasks)) at 2.
    apply map_ext_in. intros t Ht. unfold is_overdue.
    now rewrite (H t Ht). }
  rewrite P. unfold redistribute.
  assert (F : filter (is_pending cw) data.(tasks) = []).
  { clear P. induction data.(tasks) as [|t ts IH]; [reflexivity|]. simpl.
    unfold is_pending at 1. rewrite (H t (or_introl eq_refl)). simpl.
    apply IH. intros x Hx. apply H. now right. }
  rewrite F. simpl. rewrite andb_false_r. now rewrite set_tasks_same.
Qed.

Lemma auto_adjust_all_completed_witness :
  auto_adjust 739635
    (mkState 739621 739680 [demo_task "a" 1 true; demo_task "b" 12 true]
       [] [] [])
  = (mkState 739621 739680 [demo_task "a" 1 true; demo_task "b" 12 true]
       [] [] [],
     Ok (mkAdjustResponse "adjusted" 3
           (mkState 739621 739680
              [demo_task "a" 1 true; demo_task "b" 12 true] [] [] []))).
Proof.
  apply (@auto_adjust_all_completed 739635
           (mkState 739621 739680
              [demo_task "a" 1 true; demo_task "b" 12 true] [] [] [])).
  simpl. intros t [<-|[<-|[]]]; reflexivity.
Defined.

Lemma redistribute_only_places (cw : Z) (ts final : list Task) :
  1 <= cw <= 8 ->
  redistribute cw ts = Ok final ->
  Forall2 (fun t t' => t' = t \/ placed cw t t') ts final.
Proof.
  intros Hcw. unfold redistribute.
  destruct (_ && _).
  - destruct (sort_incomplete _) as [sorted|e]; simpl; [|discriminate].
    intros [= <-].
    assert (Hw : cw <= cw <= 8) by lia.
    exact (proj1 (@spread_spec cw _ sorted ts cw 0 Hw)).
  - intros [= <-]. apply Forall2_weaken with (R := eq); [|apply Forall2_same].
    intros x y _ ->. now left.
Qed.

(** X6. Whatever the ids are, a successful [auto_adjust] changes nothing
    but weeks: the store keeps its other parts, the tasks keep their number,
    their order and every field except [week], and a week that changed is
    between the current week and 8. *)
Theorem auto_adjust_changes_only_weeks (today : Z) (data data' : ProjectState)
    (r : AdjustResponse) :
  auto_adjust today data = (data', Ok r) ->
  data' = set_tasks data data'.(tasks)
  /\ r.(adj_data) = data'
  /\ Forall2 (fun t t' =>
                t' = set_week t t'.(week)
                /\ (t'.(week) = t.(week)
                    \/ current_week (today - data.(project_start))
                       <= t'.(week) <= 8))
             data.(tasks) data'.(tasks).
Proof.
  unfold auto_adjust.
  set (cw := current_week (today - data.(project_start))).
  assert (Hcw : 1 <= cw <= 8) by apply current_week_range.
  destruct (redistribute cw (pull_forward cw data.(tasks))) as [ts|e] eqn:R;
    [|discriminate].
  intros [= <- <-]. split; [reflexivity|]. split; [reflexivity|].
  simpl tasks.
  pose proof (@redistribute_only_places cw _ ts Hcw R) as F.
  assert (F0 : Forall2 (fun t t1 => t1 = if is_overdue cw t
                                         then set_week t cw else t)
                       data.(tasks) (pull_forward cw data.(tasks)))
    by apply Forall2_map_right.
  refine (@Forall2_chain _ _ _ _ _ _ _ _ _ _ F0 F).
  intros t t1 t' _ -> Rel.
  destruct (is_overdue cw t) eqn:O.
  - destruct Rel as [->|[w [Hw ->]]]; simpl.
    + split; [reflexivity | right; lia].
    + split; [reflexivity | right; lia].
  - destruct Rel as [->|[w [Hw ->]]]; simpl.
    + split; [now rewrite set_week_same | now left].
    + split; [reflexivity | right; lia].
Qed.

Lemma auto_adjust_changes_only_weeks_witness :
  Forall2 (fun t t' =>
             t' = set_week t t'.(week)
             /\ (t'.(week) = t.(week) \/ 3 <= t'.(week) <= 8))
          late_store.(tasks)
          [demo_task "a" 3 false; demo_task "b" 12 true].
Proof.
  apply (@auto_adjust_changes_only_weeks 739635 late_store
           (mkState 739621 739680
              [demo_task "a" 3 false; demo_task "b" 12 true] [] [] [])
           (mkAdjustResponse "adjusted" 3
              (mkState 739621 739680
                 [demo_task "a" 3 false; demo_task "b" 12 true] [] [] []))).
  reflexivity.
Defined.

(** ** The loop over the blocks *)

Ltac traced :=
  split; [reflexivity|];
  first [ exists []; simpl; now rewrite app_nil_r | eexists; reflexivity ].

Lemma apply_update_trace (clock : nat -> instant) (cw : Z) (update : json)
    (st st' : Run) :
  apply_update clock cw update st = Ok st' ->
  st'.(task_updates) = st.(task_updates)
  /\ exists more, st'.(printed) = st.(printed) ++ more.
Proof.
  destruct update as [| | | | |l|items]; try discriminate.
  destruct (known_action (action_of items)) eqn:K.
  - apply known_action_cases in K as [K|[K|[K|K]]].
    + rewrite (apply_move clock cw items st K). cbv zeta.
      destruct (_ && _); [|intros [= <-]; traced].
      destruct (move_loop _ _ _) as [[ts|]|e]; simpl; try discriminate;
        intros [= <-]; traced.
    + rewrite (apply_complete clock cw items st K). cbv zeta.
      destruct (truthy _); [|intros [= <-]; traced].
      destruct (complete_loop _ _); intros [= <-]; traced.
    + rewrite (apply_add clock cw items st K).
      destruct (int _); simpl; [|discriminate]. intros [= <-]. traced.
    + rewrite (apply_delete clock cw items st K). cbv zeta.
      destruct (truthy _); intros [= <-]; traced.
  - rewrite apply_unknown by exact K. intros [= <-]. traced.
Qed.

(** X7. When the loop ends without an exception, [task_updates] has
    received every update that was decoded, applied or not, in the order of
    the reply, and one line was printed for every block that could not be
    decoded. *)
Theorem run_updates_lists_decoded (clock : nat -> instant) (cw : Z)
    (candidates : list (string * result json)) (st st' : Run) :
  run_updates clock cw candidates st = Ok st' ->
  st'.(task_updates) = st.(task_updates) ++ decoded_updates candidates
  /\ (forall m, In (m, Raise JSONDecodeError) candidates ->
        In (ParseFailed m) st'.(printed))
  /\ exists more, st'.(printed) = st.(printed) ++ more.
Proof.
  revert st. induction candidates as [|[m [u|e]] more IH]; intros st; simpl.
  - intros [= <-]. split; [now rewrite app_nil_r|]. split; [tauto|].
    exists []. now rewrite app_nil_r.
  - rewrite step_decoded.
    destruct (apply_update clock cw u (recorded u st)) as [st1|e] eqn:A;
      simpl; [|discriminate].
    intros R. destruct (IH st1 R) as [U [F [p P]]].
    destruct (apply_update_trace _ _ _ _ A) as [U1 [p1 P1]].
    split; [|split].
    + rewrite U, U1. simpl. now rewrite <- app_assoc.
    + intros m' [E|Hin]; [discriminate E | now apply F].
    + exists (p1 ++ p). rewrite P, P1. simpl. now rewrite app_assoc.
  - unfold step. simpl snd. simpl fst.
    destruct e; cbn [bind]; try discriminate.
    intros R. destruct (IH _ R) as [U [F [p P]]]. simpl in U, P.
    split; [exact U|]. split.
    + intros m' [E|Hin]; [|now apply F]. injection E as <-.
      rewrite P. apply in_or_app. left. apply in_or_app. right. now left.
    + exists ([ParseFailed m] ++ p). rewrite P. now rewrite app_assoc.
Qed.

Lemma run_updates_lists_decoded_witness :
  [JDict move_a_no_week; JDict complete_a]
  = [] ++ decoded_updates
            [("m", Ok (JDict move_a_no_week)); ("{oops", Raise JSONDecodeError);
             ("c", Ok (JDict complete_a))]
  /\ (forall m,
        In (m, Raise JSONDecodeError)
           [("m", Ok (JDict move_a_no_week)); ("{oops", Raise JSONDecodeError);
            ("c", Ok (JDict complete_a))] ->
        In (ParseFailed m) [ParseFailed "{oops"; Completed (JStr "a")])
  /\ exists more,
       [ParseFailed "{oops"; Completed (JStr "a")] = [] ++ more.
Proof.
  apply (@run_updates_lists_decoded demo_clock 1
           [("m", Ok (JDict move_a_no_week)); ("{oops", Raise JSONDecodeError);
            ("c", Ok (JDict complete_a))]
           (demo_run [demo_task "a" 1 false])
           (mkRun [demo_task "a" 1 true]
                  [JDict move_a_no_week; JDict complete_a]
                  [ParseFailed "{oops"; Completed (JStr "a")] 3%nat)).
  reflexivity.
Defined.

Section BatchFacts.

Variable json_loads : string -> result json.
Variable exn_text : exn -> string.
Variable render_context : Z -> ProjectState -> json -> string.

(** X8. A reply is applied as a whole or not at all: when an update of
    the reply raises, [chat] answers with [error] true and no task update,
    and the store on disk stays as it was loaded, without the updates that
    came before the failing one and without the two chat turns. *)
Theorem chat_drops_failed_batch (w : World) (items : list (string * json))
    (data : ProjectState) (k text : string) (e : exn) :
  resolve_api_key w = Ok (Some k) ->
  String.eqb k "" = false ->
  (forall msgs, w.(ask) k msgs = Ok text) ->
  process_reply json_loads w
    (current_week ((w.(clock) 0%nat).(ordinal) - data.(project_start)))
    text (mkRun data.(tasks) [] [] 3%nat) = Raise e ->
  chat json_loads exn_text render_context w (JDict items) data
  = (data,
     Ok (mkChatResponse ("Error communicating with AI: " ++ exn_text e)%string
                        [] true)).
Proof.
  intros Hk Hne Hask Hraise.
  rewrite (@chat_after_reply json_loads exn_text render_context w items data
             k text Hk Hne Hask).
  cbv zeta. now rewrite Hraise.
Qed.

(** X9. When the model answered and no update raised, [chat] writes the
    tasks the loop left and adds exactly two turns to the chat history, the
    message of the user as it was sent and the reply of the model with its
    blocks; the response carries the reply without its blocks, the decoded
    updates and [error] false. *)
Theorem chat_commits_batch (w : World) (items : list (string * json))
    (data : ProjectState) (k text : string) (st : Run) :
  resolve_api_key w = Ok (Some k) ->
  String.eqb k "" = false ->
  (forall msgs, w.(ask) k msgs = Ok text) ->
  process_reply json_loads w
    (current_week ((w.(clock) 0%nat).(ordinal) - data.(project_start)))
    text (mkRun data.(tasks) [] [] 3%nat) = Ok st ->
  chat json_loads exn_text render_context w (JDict items) data
  = (set_chat_history (set_tasks data st.(cur_tasks))
       (data.(chat_history)
        ++ [mkTurn "user" (field items "message" (JStr ""))
                   (w.(clock) 1%nat);
            mkTurn "assistant" (JStr text) (w.(clock) 2%nat)]),
     Ok (mkChatResponse (strip (sub_blocks text)) st.(task_updates) false)).
Proof.
  intros Hk Hne Hask Hok.
  rewrite (@chat_after_reply json_loads exn_text render_context w items data
             k text Hk Hne Hask).
  cbv zeta. now rewrite Hok.
Qed.

End BatchFacts.

Lemma chat_drops_failed_batch_witness :
  chat toy_loads_soon (fun _ => "invalid literal") (fun _ _ _ => "context")
       (answering_world
          ("Ok." ++ block "<complete a>" ++ " and " ++ block "<move a soon>"))
       (JDict [("message", JStr "finish a, move it later")])
       (demo_store [demo_task "a" 1 false])
  = (demo_store [demo_task "a" 1 false],
     Ok (mkChatResponse "Error communicating with AI: invalid literal"
                        [] true)).
Proof.
  apply (@chat_drops_failed_batch toy_loads_soon (fun _ => "invalid literal")
           (fun _ _ _ => "context")
           (answering_world
              ("Ok." ++ block "<complete a>" ++ " and "
               ++ block "<move a soon>"))
           [("message", JStr "finish a, move it later")]
           (demo_store [demo_task "a" 1 false]) "sk-test"
           ("Ok." ++ block "<complete a>" ++ " and " ++ block "<move a soon>")
           ValueError);
    reflexivity.
Defined.

Lemma chat_commits_batch_witness :
  chat toy_loads (fun _ => "") (fun _ _ _ => "context")
       (answering_world ("Ok." ++ block "<complete a>" ++ " Done."))
       (JDict [("message", JStr "a is done")])
       (demo_store [demo_task "a" 1 false])
  = (mkState 0 59 [demo_task "a" 1 true] [] []
       [mkTurn "user" (JStr "a is done") (demo_clock 1%nat);
        mkTurn "assistant"
               (JStr ("Ok." ++ block "<complete a>" ++ " Done."))
               (demo_clock 2%nat)],
     Ok (mkChatResponse "Ok. Done." [JDict complete_a] false)).
Proof.
  apply (@chat_commits_batch toy_loads (fun _ => "") (fun _ _ _ => "context")
           (answering_world ("Ok." ++ block "<complete a>" ++ " Done."))
           [("message", JStr "a is done")]
           (demo_store [demo_task "a" 1 false]) "sk-test"
           ("Ok." ++ block "<complete a>" ++ " Done.")
           (mkRun [demo_task "a" 1 true] [JDict complete_a]
                  [Completed (JStr "a")] 3%nat));
    reflexivity.
Defined.

(** ** The four actions *)

Lemma truthy_str (s : string) : s <> "" -> truthy (JStr s) = true.
Proof.
  intros H. simpl. apply negb_true_iff. now apply String.eqb_neq.
Qed.

Lemma eq_str_id (i j : string) : eq_str (JStr i) j = String.eqb i j.
Proof. reflexivity. Qed.

(** X10. A [delete] with a non-empty id removes every task that has the
    id, also when several have it, keeps the other tasks in their order,
    and prints its line even when no task had the id. *)
Theorem delete_removes_all (clock : nat -> instant) (cw : Z)
    (items : list (string * json)) (i : string) (st : Run) :
  eq_str (action_of items) "delete" = true ->
  field items "task_id" JNull = JStr i ->
  i <> "" ->
  exists st',
    apply_update clock cw (JDict items) st = Ok st'
    /\ st'.(cur_tasks)
       = filter (fun t => negb (String.eqb i t.(id))) st.(cur_tasks)
    /\ ~ In i (map id st'.(cur_tasks))
    /\ (forall t, In t st.(cur_tasks) -> t.(id) <> i ->
          In t st'.(cur_tasks))
    /\ st'.(printed) = st.(printed) ++ [Deleted (JStr i)].
Proof.
  intros H T Hi. rewrite (apply_delete clock cw items st H). cbv zeta.
  rewrite T, (truthy_str Hi). eexists. split; [reflexivity|]. simpl.
  split; [reflexivity|]. split; [|split; [|reflexivity]].
  - intros Hin. apply in_map_iff in Hin as [t [E Ht]].
    apply filter_In in Ht as [_ Ht]. rewrite E, String.eqb_refl in Ht.
    discriminate.
  - intros t Ht Hne. apply filter_In. split; [exact Ht|].
    apply negb_true_iff. apply String.eqb_neq. congruence.
Qed.

Lemma delete_removes_all_witness :
  exists st',
    apply_update demo_clock 1
      (JDict [("action", JStr "delete"); ("task_id", JStr "b")])
      (demo_run [demo_task "b" 1 false; demo_task "a" 1 false;
                 demo_task "b" 2 true]) = Ok st'
    /\ st'.(cur_tasks)
       = filter (fun t => negb (String.eqb "b" t.(id)))
           [demo_task "b" 1 false; demo_task "a" 1 false;
            demo_task "b" 2 true]
    /\ ~ In "b" (map id st'.(cur_tasks))
    /\ (forall t, In t [demo_task "b" 1 false; demo_task "a" 1 false;
                        demo_task "b" 2 true] -> t.(id) <> "b" ->
          In t st'.(cur_tasks))
    /\ st'.(printed) = [] ++ [Deleted (JStr "b")].
Proof.
  apply (@delete_removes_all demo_clock 1
           [("action", JStr "delete"); ("task_id", JStr "b")] "b"
           (demo_run [demo_task "b" 1 false; demo_task "a" 1 false;
                      demo_task "b" 2 true])).
  - reflexivity.
  - reflexivity.
  - discriminate.
Defined.

Lemma move_loop_ids (tid nw : json) (ts ts' : list Task) :
  move_loop tid nw ts = Ok (Some ts') -> map id ts' = map id ts.
Proof.
  revert ts'. induction ts as [|t rest IH]; intros ts'; simpl; [discriminate|].
  destruct (eq_str tid t.(id)).
  - destruct (int nw); simpl; [|discriminate]. now intros [= <-].
  - destruct (move_loop tid nw rest) as [[r|]|e]; simpl; try discriminate.
    intros [= <-]. simpl. now rewrite (IH r eq_refl).
Qed.

Lemma complete_loop_ids (tid : json) (ts ts' : list Task) :
  complete_loop tid ts = Some ts' -> map id ts' = map id ts.
Proof.
  revert ts'. induction ts as [|t rest IH]; intros ts'; simpl; [discriminate|].
  destruct (eq_str tid t.(id)).
  - now intros [= <-].
  - destruct (complete_loop tid rest) as [r|]; simpl; [|discriminate].
    intros [= <-]. simpl. now rewrite (IH r eq_refl).
Qed.

Lemma unique_ids_filter (f : Task -> bool) (ts : list Task) :
  unique_ids ts -> unique_ids (filter f ts).
Proof.
  unfold unique_ids. induction ts as [|t ts IH]; simpl; [auto|].
  intros N. apply NoDup_cons_iff in N as [Nt N].
  destruct (f t); simpl; [|now apply IH].
  constructor; [|now apply IH].
  intros Hin. apply Nt. apply in_map_iff in Hin as [x [E Hx]].
  apply filter_In in Hx as [Hx _]. rewrite <- E. now apply in_map.
Qed.

(** X11. [move], [complete] and [delete] keep the ids unique; an [add]
    keeps them unique exactly when no task has yet the id that the clock
    gives to the new task. The other actions change nothing. *)
Theorem apply_keeps_unique_ids (clock : nat -> instant) (cw : Z)
    (update : json) (st st' : Run) :
  unique_ids st.(cur_tasks) ->
  apply_update clock cw update st = Ok st' ->
  (unique_ids st'.(cur_tasks)
   <-> forall items, update = JDict items ->
         eq_str (action_of items) "add" = true ->
         ~ In (next_id clock st) (map id st.(cur_tasks))).
Proof.
  intros N. destruct update as [| | | | |l|items]; try discriminate.
  destruct (known_action (action_of items)) eqn:K.
  - apply known_action_cases in K as [K|[K|[K|K]]].
    + assert (A : eq_str (action_of items) "add" = false)
        by (apply eq_str_true in K; now rewrite K).
      rewrite (apply_move clock cw items st K). cbv zeta. intros Happ.
      split; [intros _ items' [= <-]; congruence|]. intros _.
      destruct (_ && _); [|now injection Happ as <-].
      destruct (move_loop _ _ _) as [[ts|]|e] eqn:L; simpl in Happ;
        try discriminate Happ; injection Happ as <-; [|exact N].
      unfold unique_ids. simpl. now rewrite (move_loop_ids _ _ _ L).
    + assert (A : eq_str (action_of items) "add" = false)
        by (apply eq_str_true in K; now rewrite K).
      rewrite (apply_complete clock cw items st K). cbv zeta. intros Happ.
      split; [intros _ items' [= <-]; congruence|]. intros _.
      destruct (truthy _); [|now injection Happ as <-].
      destruct (complete_loop _ _) as [ts|] eqn:L; injection Happ as <-;
        [|exact N].
      unfold unique_ids. simpl. now rewrite (complete_loop_ids _ _ L).
    + rewrite (apply_add clock cw items st K).
      destruct (int _) as [z|]; simpl; [|discriminate]. intros [= <-].
      unfold unique_ids. simpl. rewrite map_app. simpl.
      fold (next_id clock st). split.
      * intros H items' [= <-] _ Hin.
        apply NoDup_remove_2 in H. apply H. now rewrite app_nil_r.
      * intros H. specialize (H items eq_refl K).
        apply NoDup_app; [exact N | repeat constructor; tauto |].
        intros x Hx [<-|[]]. now apply H.
    + assert (A : eq_str (action_of items) "add" = false)
        by (apply eq_str_true in K; now rewrite K).
      rewrite (apply_delete clock cw items st K). cbv zeta. intros Happ.
      split; [intros _ items' [= <-]; congruence|]. intros _.
      destruct (truthy _); injection Happ as <-; [|exact N].
      simpl. now apply unique_ids_filter.
  - assert (A : eq_str (action_of items) "add" = false).
    { unfold known_action in K. apply orb_false_elim in K as [K _].
      now apply orb_false_elim in K as [_ K]. }
    rewrite apply_unknown by exact K. intros [= <-].
    split; [intros _ items' [= <-]; congruence | now intros _].
Qed.

Lemma apply_keeps_unique_ids_witness :
  unique_ids
    (mkRun [demo_task "a" 1 false;
            mkTask "task-1768600000" (JStr "first") 2 false (JStr "medium")
                   JNull (JStr "")]
           [] [Added (JStr "first")] 4%nat).(cur_tasks)
  <-> forall items, JDict (add_titled "first") = JDict items ->
        eq_str (action_of items) "add" = true ->
        ~ In (next_id demo_clock (demo_run [demo_task "a" 1 false]))
             (map id (demo_run [demo_task "a" 1 false]).(cur_tasks)).
Proof.
  apply (@apply_keeps_unique_ids demo_clock 1 (JDict (add_titled "first"))
           (demo_run [demo_task "a" 1 false])).
  - repeat constructor. simpl. tauto.
  - reflexivity.
Defined.

Lemma move_loop_first (tid nw : json) (z : Z) (pre post : list Task)
    (t : Task) :
  (forall x, In x pre -> eq_str tid x.(id) = false) ->
  eq_str tid t.(id) = true ->
  int nw = Ok z ->
  move_loop tid nw (pre ++ t :: post) = Ok (Some (pre ++ set_week t z :: post)).
Proof.
  intros Hpre Ht Hz. induction pre as [|x pre IH]; simpl.
  - now rewrite Ht, Hz.
  - rewrite (Hpre x) by now left.
    rewrite IH; [reflexivity|]. intros y Hy. apply Hpre. now right.
Qed.

Lemma complete_loop_first (tid : json) (pre post : list Task) (t : Task) :
  (forall x, In x pre -> eq_str tid x.(id) = false) ->
  eq_str tid t.(id) = true ->
  complete_loop tid (pre ++ t :: post)
  = Some (pre ++ set_completed t true :: post).
Proof.
  intros Hpre Ht. induction pre as [|x pre IH]; simpl.
  - now rewrite Ht.
  - rewrite (Hpre x) by now left.
    rewrite IH; [reflexivity|]. intros y Hy. apply Hpre. now right.
Qed.

Lemma move_loop_unmatched (tid nw : json) (ts : list Task) :
  (forall x, In x ts -> eq_str tid x.(id) = false) ->
  move_loop tid nw ts = Ok None.
Proof.
  induction ts as [|x ts IH]; intros H; simpl; [reflexivity|].
  rewrite (H x) by now left.
  rewrite IH; [reflexivity|]. intros y Hy. apply H. now right.
Qed.

(** X12. A [move] whose id a task has and whose week converts to an
    integer that is not zero sets the week of the first task with the id to
    that integer, whatever the integer is, leaves every other task and field
    alone, and prints one line. *)
Theorem move_sets_first_week (clock : nat -> instant) (cw : Z)
    (items : list (string * json)) (st : Run) (pre post : list Task)
    (t : Task) (z : Z) :
  eq_str (action_of items) "move" = true ->
  st.(cur_tasks) = pre ++ t :: post ->
  (forall x, In x pre -> x.(id) <> t.(id)) ->
  field items "task_id" JNull = JStr t.(id) ->
  t.(id) <> "" ->
  truthy (field items "new_week" JNull) = true ->
  int (field items "new_week" JNull) = Ok z ->
  apply_update clock cw (JDict items) st
  = Ok (mkRun (pre ++ set_week t z :: post) st.(task_updates)
              (st.(printed)
               ++ [Moved (JStr t.(id)) (field items "new_week" JNull)])
              st.(tick)).
Proof.
  intros H E Hpre T Hi Tw Hz.
  rewrite (apply_move clock cw items st H). cbv zeta.
  rewrite T, (truthy_str Hi), Tw, E. simpl andb. cbv iota.
  rewrite (@move_loop_first (JStr t.(id)) _ z pre post t); auto.
  - intros x Hx. rewrite eq_str_id. apply String.eqb_neq.
    intros Ex. apply (Hpre x Hx). now symmetry.
  - apply eq_str_refl.
Qed.

Lemma move_sets_first_week_witness :
  apply_update demo_clock 1 (JDict (move_a_to (JStr " 12 ")))
    (demo_run [demo_task "b" 1 false; demo_task "a" 1 false;
               demo_task "a" 2 false])
  = Ok (mkRun [demo_task "b" 1 false; demo_task "a" 12 false;
               demo_task "a" 2 false]
              [] [Moved (JStr "a") (JStr " 12 ")] 3%nat).
Proof.
  apply (@move_sets_first_week demo_clock 1 (move_a_to (JStr " 12 "))
           (demo_run [demo_task "b" 1 false; demo_task "a" 1 false;
                      demo_task "a" 2 false])
           [demo_task "b" 1 false] [demo_task "a" 2 false]
           (demo_task "a" 1 false) 12); try reflexivity.
  - simpl. intros x [<-|[]]. discriminate.
  - discriminate.
Defined.

(** X13. A [complete] whose id a task has marks the first task with the
    id as completed, leaves every other task and field alone, and prints
    one line. *)
Theorem complete_marks_first (clock : nat -> instant) (cw : Z)
    (items : list (string * json)) (st : Run) (pre post : list Task)
    (t : Task) :
  eq_str (action_of items) "complete" = true ->
  st.(cur_tasks) = pre ++ t :: post ->
  (forall x, In x pre -> x.(id) <> t.(id)) ->
  field items "task_id" JNull = JStr t.(id) ->
  t.(id) <> "" ->
  apply_update clock cw (JDict items) st
  = Ok (mkRun (pre ++ set_completed t true :: post) st.(task_updates)
              (st.(printed) ++ [Completed (JStr t.(id))]) st.(tick)).
Proof.
  intros H E Hpre T Hi.
  rewrite (apply_complete clock cw items st H). cbv zeta.
  rewrite T, (truthy_str Hi), E.
  rewrite (@complete_loop_first (JStr t.(id)) pre post t); auto.
  - intros x Hx. rewrite eq_str_id. apply String.eqb_neq.
    intros Ex. apply (Hpre x Hx). now symmetry.
  - apply eq_str_refl.
Qed.

Lemma complete_marks_first_witness :
  apply_update demo_clock 1 (JDict complete_a)
    (demo_run [demo_task "b" 1 false; demo_task "a" 1 false;
               demo_task "a" 2 false])
  = Ok (mkRun [demo_task "b" 1 false; demo_task "a" 1 true;
               demo_task "a" 2 false]
              [] [Completed (JStr "a")] 3%nat).
Proof.
  apply (@complete_marks_first demo_clock 1 complete_a
           (demo_run [demo_task "b" 1 false; demo_task "a" 1 false;
                      demo_task "a" 2 false])
           [demo_task "b" 1 false] [demo_task "a" 2 false]
           (demo_task "a" 1 false)); try reflexivity.
  - simpl. intros x [<-|[]]. discriminate.
  - discriminate.
Defined.

(** X14. A [move] whose id no task has is skipped without a word and
    without an exception, whatever its [new_week] holds: the week is
    converted only once a task is found. *)
Theorem move_of_unknown_id_is_skipped (clock : nat -> instant) (cw : Z)
    (items : list (string * json)) (st : Run) :
  eq_str (action_of items) "move" = true ->
  (forall t, In t st.(cur_tasks) ->
     eq_str (field items "task_id" JNull) t.(id) = false) ->
  apply_update clock cw (JDict items) st = Ok st.
Proof.
  intros H Hnone. rewrite (apply_move clock cw items st H). cbv zeta.
  destruct (_ && _); [|reflexivity].
  now rewrite (@move_loop_unmatched _ _ _ Hnone).
Qed.

Lemma move_of_unknown_id_is_skipped_witness :
  apply_update demo_clock 1
    (JDict [("action", JStr "move"); ("task_id", JStr "zz");
            ("new_week", JStr "soon")])
    (demo_run [demo_task "a" 1 false])
  = Ok (demo_run [demo_task "a" 1 false]).
Proof.
  apply (@move_of_unknown_id_is_skipped demo_clock 1
           [("action", JStr "move"); ("task_id", JStr "zz");
            ("new_week", JStr "soon")]
           (demo_run [demo_task "a" 1 false])); [reflexivity|].
  simpl. intros t [<-|[]]. reflexivity.
Defined.

Lemma complete_loop_last (i : string) (ts : list Task) (t : Task) :
  ~ In i (map id ts) -> t.(id) = i ->
  complete_loop (JStr i) (ts ++ [t]) = Some (ts ++ [set_completed t true]).
Proof.
  intros Hfresh Ht. apply complete_loop_first.
  - intros x Hx. rewrite eq_str_id. apply String.eqb_neq. intros E.
    apply Hfresh. rewrite E. now apply in_map.
  - rewrite eq_str_id, Ht. apply String.eqb_refl.
Qed.

(** X15. Updates see what earlier updates of the same reply did: an [add]
    followed by a [complete] of the id the new task received leaves the new
    task completed, provided no older task has that id (otherwise the older
    task is the one that is found). *)
Theorem add_then_complete (clock : nat -> instant) (cw : Z)
    (a c : list (string * json)) (m1 m2 : string) (st : Run) (z : Z) :
  eq_str (action_of a) "add" = true ->
  int (field a "week" (JInt cw)) = Ok z ->
  eq_str (action_of c) "complete" = true ->
  field c "task_id" JNull = JStr (next_id clock st) ->
  ~ In (next_id clock st) (map id st.(cur_tasks)) ->
  exists st',
    run_updates clock cw [(m1, Ok (JDict a)); (m2, Ok (JDict c))] st
    = Ok st'
    /\ st'.(cur_tasks)
       = st.(cur_tasks) ++ [set_completed (added_task clock a st z) true]
    /\ st'.(task_updates) = st.(task_updates) ++ [JDict a; JDict c].
Proof.
  intros Ha Hz Hc Tc Hfresh. cbn [run_updates].
  rewrite step_decoded, (apply_add clock cw a _ Ha), Hz. cbn [bind].
  rewrite step_decoded, (apply_complete clock cw c _ Hc). cbv zeta.
  rewrite Tc. rewrite truthy_str by discriminate.
  cbn [recorded cur_tasks task_updates printed tick].
  fold (next_id clock st).
  rewrite (@complete_loop_last (next_id clock st) st.(cur_tasks) _ Hfresh)
    by reflexivity.
  cbn [bind]. eexists. split; [reflexivity|]. simpl.
  split; [reflexivity|]. now rewrite <- app_assoc.
Qed.

Lemma add_then_complete_witness :
  exists st',
    run_updates demo_clock 1
      [("a", Ok (JDict (add_titled "first")));
       ("c", Ok (JDict [("action", JStr "complete");
                          ("task_id", JStr "task-1768600000")]))]
      (demo_run [demo_task "a" 1 false])
    = Ok st'
    /\ st'.(cur_tasks)
       = [demo_task "a" 1 false]
         ++ [set_completed
               (added_task demo_clock (add_titled "first")
                  (demo_run [demo_task "a" 1 false]) 2) true]
    /\ st'.(task_updates)
       = [] ++ [JDict (add_titled "first");
                JDict [("action", JStr "complete");
                       ("task_id", JStr "task-1768600000")]].
Proof.
  apply (@add_then_complete demo_clock 1 (add_titled "first")
           [("action", JStr "complete");
            ("task_id", JStr "task-1768600000")]
           "a" "c" (demo_run [demo_task "a" 1 false]) 2);
    try reflexivity.
  simpl. intros [E|[]]. discriminate E.
Defined.

(** ** The reply and its blocks *)

Lemma sub_from_skip (x rest : string) :
  sub_from (length x) (x ++ rest) = sub_from 0 rest.
Proof. induction x as [|c x IH]; simpl; [reflexivity | exact IH]. Qed.

Lemma scan_unfold (c : ascii) (s : string) :
  findall_from 0 (String c s)
  = match match_block (String c s) with
    | Some (g, r) =>
        g :: findall_from (length (String c s) - length r - 1) s
    | None => findall_from 0 s
    end
  /\ sub_from 0 (String c s)
     = match match_block (String c s) with
       | Some (_, r) => sub_from (length (String c s) - length r - 1) s
       | None => String c (sub_from 0 s)
       end.
Proof. split; reflexivity. Qed.

Lemma sub_from_match (c : ascii) (x rest g : string) :
  match_block (String c (x ++ rest)) = Some (g, rest) ->
  sub_from 0 (String c (x ++ rest)) = sub_from 0 rest.
Proof.
  intros M. rewrite (proj2 (scan_unfold c (x ++ rest))), M.
  replace (length (String c (x ++ rest)) - length rest - 1)%nat
    with (length x); [apply sub_from_skip|].
  change (length (String c (x ++ rest))) with (S (length (x ++ rest))).
  rewrite length_append. lia.
Qed.

Lemma sub_from_plain (pre rest : string) :
  plain pre = true ->
  sub_from 0 (pre ++ rest) = (pre ++ sub_from 0 rest)%string.
Proof.
  induction pre as [|c pre IH]; intros H; [reflexivity|].
  simpl in H. apply andb_true_iff in H as [Hc H].
  apply negb_true_iff in Hc.
  change (String c pre ++ rest)%string with (String c (pre ++ rest)).
  rewrite (proj2 (scan_unfold c (pre ++ rest))).
  rewrite (@match_block_plain c (pre ++ rest) Hc).
  now rewrite (IH H).
Qed.

(** X16. A block in the layout of the prompt, after text without
    backquotes: [findall] gives its body without the white space in front
    and goes on behind the closing marker, and [sub_blocks] removes the
    whole block, markers included, and keeps the text in front of it. *)
Theorem block_is_extracted_and_removed (pre b rest : string) :
  plain pre = true -> no_fence b = true ->
  findall (pre ++ block b ++ rest) = lstrip b :: findall rest
  /\ sub_blocks (pre ++ block b ++ rest) = (pre ++ sub_blocks rest)%string.
Proof.
  intros Hp Hb. split.
  - unfold findall. now apply findall_from_block.
  - unfold sub_blocks. rewrite (@sub_from_plain pre _ Hp). f_equal.
    change (block b ++ rest)%string
      with (String "`" (("``task_update" ++ nl ++ b ++ nl ++ fence) ++ rest)).
    apply sub_from_match with (g := lstrip b).
    exact (@match_block_block b rest Hb).
Qed.

Lemma block_is_extracted_and_removed_witness :
  findall ("Sure." ++ block "  <move a to 2>" ++ " Done.")
  = lstrip "  <move a to 2>" :: findall " Done."
  /\ sub_blocks ("Sure." ++ block "  <move a to 2>" ++ " Done.")
     = ("Sure." ++ sub_blocks " Done.")%string.
Proof.
  apply (@block_is_extracted_and_removed "Sure." "  <move a to 2>" " Done.");
    reflexivity.
Defined.

Lemma never_matches_scan (s : string) :
  never_matches s -> findall_from 0 s = [] /\ sub_from 0 s = s.
Proof.
  induction s as [|c s IH]; intros H; [split; reflexivity|].
  destruct H as [M H]. destruct (IH H) as [F S].
  destruct (scan_unfold c s) as [-> ->]. rewrite M, F, S. now split.
Qed.

Lemma lazy_body_none (x : string) : no_fence x = true -> lazy_body x = None.
Proof.
  induction x as [|c x IH]; intros H.
  - reflexivity.
  - pose proof (@no_fence_tail _ _ H) as H'.
    rewrite lazy_body_unfold, (@no_fence_head _ H).
    change (nl ++ fence)%string with (String "010" fence).
    rewrite prefix_cons, (@no_fence_head _ H'), (IH H').
    now destruct (Ascii.eqb "010" c).
Qed.

Lemma prefix_opener_fence (s : string) :
  prefix fence s = false -> prefix opener s = false.
Proof.
  unfold fence, opener.
  destruct s as [|a [|b [|c s]]]; try reflexivity; prefix_steps;
    destruct (Ascii.eqb "`" a); try reflexivity;
    destruct (Ascii.eqb "`" b); try reflexivity;
    destruct (Ascii.eqb "`" c); try reflexivity; discriminate.
Qed.

Lemma never_matches_no_fence (s : string) :
  no_fence s = true -> never_matches s.
Proof.
  induction s as [|c s IH]; intros H.
  - split; [reflexivity | exact I].
  - split.
    + unfold match_block. now rewrite (@prefix_opener_fence _ (@no_fence_head _ H)).
    + apply IH. exact (@no_fence_tail _ _ H).
Qed.

Lemma never_matches_plain (pre s : string) :
  plain pre = true -> never_matches s -> never_matches (pre ++ s).
Proof.
  induction pre as [|c pre IH]; intros H Hs; [exact Hs|].
  simpl in H. apply andb_true_iff in H as [Hc H].
  apply negb_true_iff in Hc. split.
  - exact (@match_block_plain c (pre ++ s) Hc).
  - now apply IH.
Qed.

Lemma never_matches_opener (tail : string) :
  no_fence tail = true -> never_matches (opener ++ tail).
Proof.
  intros H.
  assert (L : lazy_body (lstrip tail) = None)
    by (apply lazy_body_none; now apply no_fence_lstrip).
  unfold opener. cbn [append].
  repeat (split;
          [ unfold match_block, opener; prefix_steps;
            cbn [Ascii.eqb Bool.eqb drop andb]; try reflexivity; exact L
          | cbn [never_matches] ]).
  now apply never_matches_no_fence.
Qed.

(** X17. Text in which no closing marker occurs holds no update and is
    shown as it is; this covers text without backquotes and text with
    single backquotes. *)
Theorem text_without_fence_is_kept (s : string) :
  no_fence s = true -> findall s = [] /\ sub_blocks s = s.
Proof.
  intros H. apply never_matches_scan. now apply never_matches_no_fence.
Qed.

Lemma text_without_fence_is_kept_witness :
  findall "Use `week` and ``id`` as they are." = []
  /\ sub_blocks "Use `week` and ``id`` as they are."
     = "Use `week` and ``id`` as they are.".
Proof.
  apply (@text_without_fence_is_kept "Use `week` and ``id`` as they are.").
  reflexivity.
Defined.

(** X18. A block that is opened and never closed is not an update: when
    no closing marker follows the opening one, [findall] finds nothing and
    [sub_blocks] leaves the text whole, opening marker included. *)
Theorem unterminated_block_is_text (pre tail : string) :
  plain pre = true -> no_fence tail = true ->
  findall (pre ++ opener ++ tail) = []
  /\ sub_blocks (pre ++ opener ++ tail) = (pre ++ opener ++ tail)%string.
Proof.
  intros Hp Ht. apply never_matches_scan.
  apply never_matches_plain; [exact Hp|]. now apply never_matches_opener.
Qed.

Lemma unterminated_block_is_text_witness :
  findall ("Here: " ++ opener ++ " <move a to 2> and so on") = []
  /\ sub_blocks ("Here: " ++ opener ++ " <move a to 2> and so on")
     = ("Here: " ++ opener ++ " <move a to 2> and so on")%string.
Proof.
  apply (@unterminated_block_is_text "Here: " " <move a to 2> and so on");
    reflexivity.
Defined.

(** ** The credential *)

Lemma string_rev_onto_app (s acc : string) :
  string_rev_onto s acc = (string_rev s ++ acc)%string.
Proof.
  unfold string_rev. revert acc.
  induction s as [|c s IH]; intros acc; simpl; [reflexivity|].
  rewrite (IH (String c acc)), (IH (String c "")).
  now rewrite append_assoc.
Qed.

Lemma string_rev_cons (c : ascii) (s : string) :
  string_rev (String c s) = (string_rev s ++ String c "")%string.
Proof. unfold string_rev at 1. simpl. apply string_rev_onto_app. Qed.

Lemma append_empty (s : string) : (s ++ "")%string = s.
Proof. induction s as [|c s IH]; simpl; [reflexivity | now rewrite IH]. Qed.

Lemma string_rev_app (a b : string) :
  string_rev (a ++ b) = (string_rev b ++ string_rev a)%string.
Proof.
  induction a as [|c a IH]; simpl.
  - now rewrite append_empty.
  - now rewrite !string_rev_cons, IH, append_assoc.
Qed.

Lemma string_rev_twice (s : string) : string_rev (string_rev s) = s.
Proof.
  induction s as [|c s IH]; [reflexivity|].
  now rewrite string_rev_cons, string_rev_app, IH.
Qed.

Lemma all_chars_app (p : ascii -> bool) (a b : string) :
  all_chars p (a ++ b) = all_chars p a && all_chars p b.
Proof.
  induction a as [|c a IH]; simpl; [reflexivity|].
  now rewrite IH, andb_assoc.
Qed.

Lemma all_chars_rev (p : ascii -> bool) (s : string) :
  all_chars p (string_rev s) = all_chars p s.
Proof.
  induction s as [|c s IH]; [reflexivity|].
  rewrite string_rev_cons, all_chars_app, IH. simpl.
  now rewrite andb_true_r, andb_comm.
Qed.

Section Stripping.

(** [lstrip] and [lstrip_quotes] are the same loop over two classes of
    characters. *)
Variable p : ascii -> bool.
Variable strip_left : string -> string.
Hypothesis strip_left_cons :
  forall c s, strip_left (String c s)
              = if p c then strip_left s else String c s.
Hypothesis strip_left_empty : strip_left "" = "".

Lemma strip_left_all (ws y : string) :
  all_chars p ws = true -> strip_left (ws ++ y) = strip_left y.
Proof.
  induction ws as [|c ws IH]; intros H; [reflexivity|].
  simpl in H. apply andb_true_iff in H as [Hc H].
  simpl. now rewrite strip_left_cons, Hc, IH.
Qed.

Lemma strip_left_stop (y : string) :
  starts_with (fun c => negb (p c)) y = true -> strip_left y = y.
Proof.
  destruct y as [|c y]; [discriminate|]. simpl. intros H.
  apply negb_true_iff in H. now rewrite strip_left_cons, H.
Qed.

Lemma strip_right_all (x ws : string) :
  all_chars p ws = true ->
  starts_with (fun c => negb (p c)) (string_rev x) = true ->
  string_rev (strip_left (string_rev (x ++ ws))) = x.
Proof.
  intros Hws Hx. rewrite string_rev_app.
  rewrite strip_left_all by now rewrite all_chars_rev.
  rewrite strip_left_stop by exact Hx. apply string_rev_twice.
Qed.

End Stripping.

Lemma starts_with_app (p : ascii -> bool) (a b : string) :
  starts_with p a = true -> starts_with p (a ++ b) = true.
Proof. destruct a; [discriminate | exact (fun H => H)]. Qed.

Lemma starts_with_weaken (p q : ascii -> bool) (s : string) :
  (forall c, p c = true -> q c = true) ->
  starts_with p s = true -> starts_with q s = true.
Proof. destruct s; [discriminate | simpl; auto]. Qed.

Lemma is_bare_not_space (c : ascii) :
  is_bare c = true -> negb (is_space c) = true.
Proof.
  unfold is_bare. intros H. apply negb_true_iff in H.
  apply orb_false_elim in H as [H _]. now rewrite H.
Qed.

Lemma is_bare_not_quote (c : ascii) :
  is_bare c = true -> negb (is_quote c) = true.
Proof.
  unfold is_bare. intros H. apply negb_true_iff in H.
  apply orb_false_elim in H as [_ H]. now rewrite H.
Qed.

Lemma is_quote_not_space (c : ascii) :
  is_quote c = true -> negb (is_space c) = true.
Proof.
  unfold is_quote. intros H. apply orb_true_iff in H as [H|H];
    apply Ascii.eqb_eq in H; subst; reflexivity.
Qed.

Lemma starts_with_all (p : ascii -> bool) (s : string) :
  all_chars p s = true -> s <> "" -> starts_with p s = true.
Proof.
  destruct s as [|c s]; [congruence|]. simpl. intros H _.
  now apply andb_true_iff in H as [H _].
Qed.

(** The last character of a quoted bare value is a quote or the last
    character of the value. *)
Lemma ends_bare_or_quote (f : ascii -> bool) (x k q2 : string) :
  (forall c, is_bare c = true -> f c = true) ->
  (forall c, is_quote c = true -> f c = true) ->
  all_chars is_quote q2 = true ->
  starts_with is_bare (string_rev k) = true ->
  starts_with f (string_rev (x ++ k ++ q2)) = true.
Proof.
  intros Hb Hq Hq2 Hk. rewrite !string_rev_app.
  destruct q2 as [|c q2].
  - simpl. apply starts_with_app. now apply starts_with_weaken with (p := is_bare).
  - apply starts_with_app, starts_with_app.
    apply starts_with_weaken with (p := is_quote); [exact Hq|].
    apply starts_with_all; [now rewrite all_chars_rev|].
    rewrite string_rev_cons. now destruct (string_rev q2).
Qed.

(** The value of a line [ANTHROPIC_API_KEY=...] with quotes around a bare
    value and white space behind. *)
Lemma value_of_line (q1 q2 ws k : string) :
  all_chars is_quote q1 = true -> all_chars is_quote q2 = true ->
  all_chars is_space ws = true -> bare k = true ->
  strip_quotes (after_equals (strip (key_name ++ q1 ++ k ++ q2 ++ ws))) = k.
Proof.
  intros Hq1 Hq2 Hws Hk. unfold bare in Hk.
  apply andb_true_iff in Hk as [Hk1 Hk2].
  assert (S : strip (key_name ++ q1 ++ k ++ q2 ++ ws)
              = (key_name ++ q1 ++ k ++ q2)%string).
  { unfold strip, rstrip.
    change (lstrip (key_name ++ q1 ++ k ++ q2 ++ ws))
      with (key_name ++ q1 ++ k ++ q2 ++ ws)%string.
    replace (key_name ++ q1 ++ k ++ q2 ++ ws)%string
      with (((key_name ++ q1) ++ k ++ q2) ++ ws)%string
      by now rewrite !append_assoc.
    replace (key_name ++ q1 ++ k ++ q2)%string
      with ((key_name ++ q1) ++ k ++ q2)%string
      by now rewrite !append_assoc.
    apply (@strip_right_all is_space lstrip); auto.
    apply ends_bare_or_quote; auto using is_bare_not_space, is_quote_not_space. }
  rewrite S.
  change (after_equals (key_name ++ q1 ++ k ++ q2))
    with (q1 ++ k ++ q2)%string.
  unfold strip_quotes.
  rewrite (@strip_left_all is_quote lstrip_quotes) by auto.
  assert (E : lstrip_quotes (k ++ q2) = (k ++ q2)%string).
  { apply (@strip_left_stop is_quote lstrip_quotes); auto.
    apply starts_with_app.
    now apply starts_with_weaken with (p := is_bare);
      [apply is_bare_not_quote|]. }
  rewrite E.
  apply (@strip_right_all is_quote lstrip_quotes); auto.
  now apply starts_with_weaken with (p := is_bare);
    [apply is_bare_not_quote|].
Qed.

Lemma key_of_lines_first (pre post : list string) (line : string)
    (api_key : option string) :
  (forall l, In l pre -> prefix key_name l = false) ->
  prefix key_name line = true ->
  key_of_lines (pre ++ line :: post) api_key
  = Some (strip_quotes (after_equals (strip line))).
Proof.
  intros Hpre Hl. induction pre as [|l pre IH]; simpl.
  - unfold key_name in Hl. now rewrite Hl.
  - pose proof (Hpre l (or_introl eq_refl)) as Hn. unfold key_name in Hn.
    rewrite Hn. apply IH. intros x Hx. apply Hpre. now right.
Qed.

(** X19. Without a key in the environment, the key is read from the first
    line of [~/.env] that starts with [ANTHROPIC_API_KEY=]: quotes around
    the value and white space behind it are dropped, later lines are not
    looked at, and the value may hold [=] signs. *)
Theorem key_read_from_dotenv (w : World) (pre post : list string)
    (q1 q2 ws k : string) :
  no_key w.(environ_key) = true ->
  w.(dotenv) = Lines (pre ++ (key_name ++ q1 ++ k ++ q2 ++ ws)%string :: post) ->
  (forall l, In l pre -> prefix key_name l = false) ->
  all_chars is_quote q1 = true -> all_chars is_quote q2 = true ->
  all_chars is_space ws = true -> bare k = true ->
  resolve_api_key w = Ok (Some k) /\ no_key (Some k) = false.
Proof.
  intros He Hd Hpre Hq1 Hq2 Hws Hk. split.
  - unfold resolve_api_key. rewrite He, Hd.
    rewrite (@key_of_lines_first pre post _ w.(environ_key) Hpre).
    + now rewrite value_of_line.
    + unfold key_name. cbn [append]. prefix_steps. reflexivity.
  - unfold bare in Hk. apply andb_true_iff in Hk as [Hk _].
    destruct k; [discriminate | reflexivity].
Qed.

Lemma key_read_from_dotenv_witness :
  resolve_api_key dotenv_world = Ok (Some "sk-ant-123")
  /\ no_key (Some "sk-ant-123") = false.
Proof.
  apply (@key_read_from_dotenv dotenv_world ["# settings"; "EDITOR=vi"]
           [(key_name ++ "other")%string]
           (String "034" "") (String "034" "") nl "sk-ant-123");
    try reflexivity.
  simpl. intros l [<-|[<-|[]]]; reflexivity.
Defined.

Section CredentialFacts.

Variable json_loads : string -> result json.
Variable exn_text : exn -> string.
Variable render_context : Z -> ProjectState -> json -> string.

(** X20. Without a key in the environment, a [~/.env] that cannot be
    opened does not make [chat] raise: the exception is reported in a
    response with [error] true, and the store stays as it was. *)
Theorem unreadable_dotenv_is_reported (w : World)
    (items : list (string * json)) (data : ProjectState) (e : exn) :
  no_key w.(environ_key) = true ->
  w.(dotenv) = Unreadable e ->
  chat json_loads exn_text render_context w (JDict items) data
  = (data,
     Ok (mkChatResponse ("Error communicating with AI: " ++ exn_text e)%string
                        [] true)).
Proof.
  intros He Hd. unfold chat. rewrite get_dict. cbv zeta.
  unfold chat_try, resolve_api_key. now rewrite He, Hd.
Qed.

(** X21. The model is asked with the messages of [chat_messages]: the
    last six stored turns at most, in their order, and the context block
    as the last message. When that one call fails, [chat] reports it. *)
Theorem chat_sends_last_six (w : World) (items : list (string * json))
    (data : ProjectState) (k : string) (e : exn) :
  let cw := current_week ((w.(clock) 0%nat).(ordinal) - data.(project_start)) in
  let context := render_context cw data (field items "message" (JStr "")) in
  let messages := chat_messages data context in
  resolve_api_key w = Ok (Some k) ->
  String.eqb k "" = false ->
  w.(ask) k messages = Raise e ->
  chat json_loads exn_text render_context w (JDict items) data
  = (data,
     Ok (mkChatResponse ("Error communicating with AI: " ++ exn_text e)%string
                        [] true))
  /\ List.length messages
     = S (Nat.min 6 (List.length data.(chat_history)))
  /\ last messages ("", JNull) = ("user", JStr context)
  /\ exists older recent,
       data.(chat_history) = older ++ recent
       /\ messages = map (fun m => (m.(role), m.(content))) recent
                     ++ [("user", JStr context)].
Proof.
  intros cw context messages Hk Hne Hask. split; [|split; [|split]].
  - unfold chat. rewrite get_dict. cbv zeta.
    fold cw. fold context. fold (chat_messages data context). fold messages.
    unfold chat_try. rewrite Hk. cbn [bind no_key or_else].
    now rewrite Hne, Hask.
  - unfold messages, chat_messages, last_n.
    rewrite length_app, length_map, length_skipn. cbn [List.length]. lia.
  - unfold messages, chat_messages. apply last_last.
  - exists (firstn (List.length data.(chat_history) - 6) data.(chat_history)),
           (last_n 6 data.(chat_history)).
    split; [|reflexivity]. unfold last_n. symmetry. apply firstn_skipn.
Qed.

End CredentialFacts.

Lemma unreadable_dotenv_is_reported_witness :
  chat (fun _ => Raise JSONDecodeError) (fun _ => "Permission denied")
       (fun _ _ _ => "context") locked_world
       (JDict [("message", JStr "hello")])
       (demo_store [demo_task "a" 1 false])
  = (demo_store [demo_task "a" 1 false],
     Ok (mkChatResponse "Error communicating with AI: Permission denied"
                        [] true)).
Proof.
  apply (@unreadable_dotenv_is_reported (fun _ => Raise JSONDecodeError)
           (fun _ => "Permission denied") (fun _ _ _ => "context")
           locked_world [("message", JStr "hello")]
           (demo_store [demo_task "a" 1 false])
           (ServiceError "Permission denied"));
    reflexivity.
Defined.

Lemma chat_sends_last_six_witness :
  chat (fun _ => Raise JSONDecodeError) (fun _ => "overloaded")
       (fun _ _ _ => "context")
       failing_world (JDict [("message", JStr "hello")])
       (mkState 739633 739692 [] [] [] long_history)
  = (mkState 739633 739692 [] [] [] long_history,
     Ok (mkChatResponse "Error communicating with AI: overloaded" [] true))
  /\ List.length
       (chat_messages (mkState 739633 739692 [] [] [] long_history) "context")
     = 7%nat
  /\ last (chat_messages (mkState 739633 739692 [] [] [] long_history)
             "context") ("", JNull)
     = ("user", JStr "context")
  /\ exists older recent,
       long_history = older ++ recent
       /\ chat_messages (mkState 739633 739692 [] [] [] long_history)
            "context"
          = map (fun m => (m.(role), m.(content))) recent
            ++ [("user", JStr "context")].
Proof.
  apply (@chat_sends_last_six (fun _ => Raise JSONDecodeError)
           (fun _ => "overloaded")
           (fun _ _ _ => "context") failing_world
           [("message", JStr "hello")]
           (mkState 739633 739692 [] [] [] long_history) "sk-test"
           (ServiceError "overloaded"));
    reflexivity.
Defined.

(** ** POST /api/result *)

Lemma lookup_assign_same (k : string) (v : json)
    (items : list (string * json)) :
  lookup k (assign k v items) = Some v.
Proof.
  induction items as [|[k' v'] rest IH]; simpl.
  - now rewrite String.eqb_refl.
  - destruct (String.eqb k' k) eqn:E; simpl; now rewrite E.
Qed.

Lemma lookup_assign_other (k k0 : string) (v : json)
    (items : list (string * json)) :
  k0 <> k -> lookup k0 (assign k v items) = lookup k0 items.
Proof.
  intros N. induction items as [|[k' v'] rest IH]; simpl.
  - apply String.eqb_neq in N. rewrite String.eqb_sym in N. now rewrite N.
  - destruct (String.eqb k' k) eqn:E; simpl.
    + apply String.eqb_eq in E. subst k'.
      assert (F : String.eqb k k0 = false)
        by (apply String.eqb_neq; congruence).
      now rewrite F.
    + destruct (String.eqb k' k0); [reflexivity | exact IH].
Qed.

Section ResultFacts.

Variable isoformat : instant -> string.

(** X22. [log_result] appends the body to the results, after those that
    were there, and answers with what it stored. The stored object has the
    keys of the body with their values, except [date], which holds the time
    of the server also when the body brought a date of its own. A body that
    is not an object raises [TypeError] and the store stays. *)
Theorem log_result_stamps_and_appends (now : instant) (body : json)
    (data : ProjectState) :
  match body with
  | JDict items =>
      exists stored,
        log_result isoformat now body data
        = (set_results data (data.(results) ++ [JDict stored]),
           Ok (mkLogResponse "logged" (JDict stored)))
        /\ lookup "date" stored = Some (JStr (isoformat now))
        /\ (forall k, k <> "date" -> lookup k stored = lookup k items)
        /\ (lookup "date" items <> None ->
            List.length stored = List.length items)
  | _ => log_result isoformat now body data = (data, Raise TypeError)
  end.
Proof.
  destruct body as [| | | | |l|items]; try reflexivity.
  exists (assign "date" (JStr (isoformat now)) items).
  split; [reflexivity|]. split; [apply lookup_assign_same|].
  split; [intros k Hk; now apply lookup_assign_other|].
  induction items as [|[k' v'] rest IH]; simpl; [congruence|].
  destruct (String.eqb k' "date"); simpl; [reflexivity|].
  intros H. now rewrite IH.
Qed.

End ResultFacts.

Lemma log_result_stamps_and_appends_witness :
  exists stored,
    log_result (fun _ => "2026-01-17T10:00:00")
      (mkInstant 739633 1768644000)
      (JDict [("date", JStr "yesterday"); ("blot", JStr "MAG down")])
      (demo_store [])
    = (set_results (demo_store []) ([] ++ [JDict stored]),
       Ok (mkLogResponse "logged" (JDict stored)))
    /\ lookup "date" stored = Some (JStr "2026-01-17T10:00:00")
    /\ (forall k, k <> "date" ->
          lookup k stored
          = lookup k [("date", JStr "yesterday"); ("blot", JStr "MAG down")])
    /\ (lookup "date" [("date", JStr "yesterday"); ("blot", JStr "MAG down")]
        <> None ->
        List.length stored = 2%nat).
Proof.
  exact (@log_result_stamps_and_appends (fun _ => "2026-01-17T10:00:00")
           (mkInstant 739633 1768644000)
           (JDict [("date", JStr "yesterday"); ("blot", JStr "MAG down")])
           (demo_store [])).
Defined.

(** ** The default store *)

Lemma distinct_NoDup (l : list string) : distinct l = true -> NoDup l.
Proof.
  induction l as [|x rest IH]; simpl; intros H; [constructor|].
  apply andb_true_iff in H as [Hx H]. constructor; [|now apply IH].
  intros Hin. apply negb_true_iff in Hx.
  assert (E : existsb (String.eqb x) rest = true).
  { apply existsb_exists. exists x. split; [exact Hin|].
    apply String.eqb_refl. }
  congruence.
Qed.

(** A store whose tasks are all incomplete, with unique ids and
    priorities that can be hashed: every task is placed. *)
Lemma auto_adjust_places_all (today : Z) (data : ProjectState) :
  unique_ids data.(tasks) ->
  (forall t, In t data.(tasks) ->
     t.(completed) = false /\ hashable t.(priority) = true) ->
  exists data',
    auto_adjust today data
    = (data',
       Ok (mkAdjustResponse "adjusted"
             (current_week (today - data.(project_start))) data'))
    /\ Forall2 (placed (current_week (today - data.(project_start))))
               data.(tasks) data'.(tasks).
Proof.
  intros N H. unfold auto_adjust.
  set (cw := current_week (today - data.(project_start))).
  assert (Hcw : 1 <= cw <= 8) by apply current_week_range.
  set (pull := fun t => if is_overdue cw t then set_week t cw else t).
  assert (F0 : Forall2 (fun t t1 => t1 = pull t) data.(tasks)
                       (pull_forward cw data.(tasks)))
    by apply Forall2_map_right.
  assert (N1 : unique_ids (pull_forward cw data.(tasks))).
  { unfold unique_ids.
    rewrite (same_ids (R := fun t t1 => t1 = pull t) (ts := data.(tasks)));
      auto.
    intros t t1 ->. unfold pull. now destruct (is_overdue cw t). }
  destruct (@redistribute_spec cw (pull_forward cw data.(tasks)) Hcw)
    as [final [R [_ U]]].
  { intros t1 Ht1 _.
    destruct (Forall2_in_right t1 F0 Ht1) as [t [Ht ->]].
    destruct (H t Ht) as [C P]. unfold pull, is_overdue. rewrite C. simpl.
    destruct (Z.ltb_spec t.(week) cw); simpl; split; auto; lia. }
  rewrite R. eexists. split; [reflexivity|]. simpl tasks.
  refine (@Forall2_chain _ _ _ _ _ _ _ _ _ _ F0 (U N1)).
  intros t t1 t' Ht -> Rel. destruct (H t Ht) as [C _].
  assert (C1 : (pull t).(completed) = false)
    by (unfold pull; now destruct (is_overdue cw t)).
  rewrite C1 in Rel. destruct Rel as [w [Hw ->]]. exists w.
  split; [exact Hw|]. unfold pull. now destruct (is_overdue cw t).
Qed.

(** X23. The default store has unique ids and weeks between 1 and 8, and
    on any day [auto_adjust] accepts it: the 23 tasks keep their ids and
    their order and each gets a week between the current week and 8. *)
Theorem default_store_adjusts (today : Z) :
  unique_ids get_default_data.(tasks)
  /\ weeks_in_range get_default_data.(tasks)
  /\ exists data',
       auto_adjust today get_default_data
       = (data',
          Ok (mkAdjustResponse "adjusted" (current_week (today - 739633))
                data'))
       /\ map id data'.(tasks) = map id get_default_data.(tasks)
       /\ forall t', In t' data'.(tasks) ->
            current_week (today - 739633) <= t'.(week) <= 8
            /\ t'.(completed) = false.
Proof.
  assert (N : unique_ids get_default_data.(tasks))
    by (apply distinct_NoDup; reflexivity).
  split; [exact N|]. split.
  - intros t Ht. unfold TOTAL_WEEKS.
    assert (B : forallb (fun t => (1 <=? t.(week)) && (t.(week) <=? 8))
                        get_default_data.(tasks) = true) by reflexivity.
    rewrite forallb_forall in B. specialize (B t Ht).
    apply andb_true_iff in B as [B1 B2]. lia.
  - destruct (@auto_adjust_places_all today get_default_data N)
      as [data' [E F]].
    { intros t Ht.
      assert (B : forallb (fun t => negb t.(completed)
                                    && hashable t.(priority))
                          get_default_data.(tasks) = true) by reflexivity.
      rewrite forallb_forall in B. specialize (B t Ht).
      apply andb_true_iff in B as [B1 B2].
      split; [now apply negb_true_iff in B1 | exact B2]. }
    exists data'. split; [exact E|]. split.
    + apply same_ids with (R := placed (current_week (today - 739633)));
        [|exact F].
      intros t t' [w [_ ->]]. reflexivity.
    + intros t' Ht'.
      destruct (Forall2_in_right t' F Ht') as [t [Ht [w [Hw ->]]]].
      simpl. split; [exact Hw|].
      assert (B : forallb (fun t => negb t.(completed))
                          get_default_data.(tasks) = true) by reflexivity.
      rewrite forallb_forall in B. specialize (B t Ht).
      now apply negb_true_iff in B.
Qed.

Lemma default_store_adjusts_witness :
  unique_ids get_default_data.(tasks)
  /\ weeks_in_range get_default_data.(tasks)
  /\ exists data',
       auto_adjust 739650 get_default_data
       = (data',
          Ok (mkAdjustResponse "adjusted" (current_week (739650 - 739633))
                data'))
       /\ map id data'.(tasks) = map id get_default_data.(tasks)
       /\ forall t', In t' data'.(tasks) ->
            current_week (739650 - 739633) <= t'.(week) <= 8
            /\ t'.(completed) = false.
Proof. exact (default_store_adjusts 739650). Defined.

(** ** Auto-adjust: how many tasks a week gets *)

Lemma keys_of_snd (ts : list Task) (ks : list (Z * Z * Task)) :
  keys_of ts = Ok ks -> map snd ks = ts.
Proof.
  revert ks. induction ts as [|t rest IH]; intros ks; simpl.
  - now intros [= <-].
  - destruct (priority_order_get t.(priority)) as [r|]; simpl; [|discriminate].
    destruct (keys_of rest) as [ks'|]; simpl; [|discriminate].
    intros [= <-]. simpl. now rewrite (IH ks' eq_refl).
Qed.

Lemma insert_keyed_perm (x : Z * Z * Task) (l : list (Z * Z * Task)) :
  Permutation (insert_keyed x l) (x :: l).
Proof.
  induction l as [|a l IH]; simpl; [apply Permutation_refl|].
  destruct (key_le (fst x) (fst a)); [apply Permutation_refl|].
  apply perm_trans with (a :: x :: l); [now apply perm_skip | apply perm_swap].
Qed.

Lemma sort_keyed_perm (l : list (Z * Z * Task)) :
  Permutation (sort_keyed l) l.
Proof.
  induction l as [|a l IH]; simpl; [apply perm_nil|].
  apply perm_trans with (a :: sort_keyed l);
    [apply insert_keyed_perm | now apply perm_skip].
Qed.

Lemma sort_incomplete_perm (ts sorted : list Task) :
  sort_incomplete ts = Ok sorted -> Permutation sorted ts.
Proof.
  unfold sort_incomplete.
  destruct (keys_of ts) as [ks|] eqn:K; simpl; [|discriminate].
  intros [= <-]. rewrite <- (keys_of_snd _ K).
  apply Permutation_map, sort_keyed_perm.
Qed.

Lemma placed_in_week_ext (l1 l2 : list string) (k : Z) (ts : list Task) :
  (forall t, In t ts -> existsb (String.eqb t.(id)) l1
                        = existsb (String.eqb t.(id)) l2) ->
  placed_in_week l1 k ts = placed_in_week l2 k ts.
Proof.
  intros H. unfold placed_in_week. f_equal. apply filter_ext_in.
  intros t Ht. now rewrite (H t Ht).
Qed.

Lemma existsb_id_false (i : string) (l : list string) :
  ~ In i l -> existsb (String.eqb i) l = false.
Proof.
  intros H. destruct (existsb (String.eqb i) l) eqn:E; [|reflexivity].
  apply existsb_exists in E as [x [Hx Ex]]. apply String.eqb_eq in Ex.
  subst x. contradiction.
Qed.

Lemma placed_in_week_cons (l : list string) (k : Z) (t : Task)
    (ts : list Task) :
  placed_in_week l k (t :: ts)
  = ((if existsb (String.eqb t.(id)) l && (t.(week) =? k)%Z then 1 else 0)
     + placed_in_week l k ts)%nat.
Proof.
  unfold placed_in_week. cbn [filter].
  now destruct (existsb (String.eqb t.(id)) l && (t.(week) =? k)).
Qed.

(** One turn of the outer loop, for an id that a task has and that was
    not handled before: the task takes the next week and is counted
    there. *)
Lemma assign_first_count (tid : string) (tasks_per_week : Z)
    (handled : list string) (ts : list Task) :
  forall wk cnt ts' w' c',
    unique_ids ts -> In tid (map id ts) -> ~ In tid handled ->
    assign_first tid tasks_per_week wk cnt ts = (ts', w', c') ->
    w' = next_week tasks_per_week wk cnt
    /\ c' = next_count tasks_per_week wk cnt
    /\ map id ts' = map id ts
    /\ forall k, placed_in_week (tid :: handled) k ts'
                 = (placed_in_week handled k ts
                    + if (w' =? k)%Z then 1 else 0)%nat.
Proof.
  induction ts as [|t rest IH]; intros wk cnt ts' w' c' N Hin Hfresh;
    [contradiction|].
  cbn [assign_first]. destruct (String.eqb_spec t.(id) tid) as [E|E].
  - intros [= <- <- <-]. fold (next_week tasks_per_week wk cnt).
    split; [reflexivity|]. split; [reflexivity|]. split; [reflexivity|].
    intros k. rewrite !placed_in_week_cons. cbn [existsb id week set_week].
    rewrite E, String.eqb_refl, (@existsb_id_false _ _ Hfresh).
    cbn [orb andb].
    apply NoDup_cons_iff in N as [Nt _].
    rewrite (@placed_in_week_ext (tid :: handled) handled k rest).
    + destruct (next_week tasks_per_week wk cnt =? k); lia.
    + intros x Hx. cbn [existsb].
      assert (F : String.eqb x.(id) tid = false).
      { apply String.eqb_neq. intros Ex. apply Nt. cbn [id] in *.
        rewrite E, <- Ex. now apply in_map. }
      now rewrite F.
  - destruct (assign_first tid tasks_per_week wk cnt rest)
      as [[r w] c] eqn:A.
    intros [= <- <- <-].
    apply NoDup_cons_iff in N as [_ N].
    destruct Hin as [Hin|Hin]; [contradiction|].
    destruct (IH _ _ _ _ _ N Hin Hfresh A) as [Hw [Hc [Hi Hk]]].
    split; [exact Hw|]. split; [exact Hc|].
    split; [cbn [map]; now rewrite Hi|].
    intros k. rewrite !placed_in_week_cons, (Hk k). cbn [existsb].
    assert (F : String.eqb t.(id) tid = false) by now apply String.eqb_neq.
    rewrite F. cbn [orb]. lia.
Qed.

Section Capacity.

Variable tasks_per_week : Z.
Hypothesis three : 3 <= tasks_per_week.
Variable lo : Z.

(** The outer loop keeps, for the tasks handled so far: at most
    [tasks_per_week] of them in every week before 8, at most [count] of
    them in the running week, and none in a later week. *)
Lemma spread_capacity (incomplete : list Task) :
  forall ts wk cnt handled,
    unique_ids ts -> NoDup (map id incomplete) ->
    (forall i, In i (map id incomplete) -> In i (map id ts)) ->
    (forall i, In i (map id incomplete) -> ~ In i handled) ->
    lo <= wk <= 8 -> 0 <= cnt -> (wk < 8 -> cnt <= tasks_per_week) ->
    (forall k, k < 8 ->
       Z.of_nat (placed_in_week handled k ts) <= tasks_per_week) ->
    (wk < 8 -> Z.of_nat (placed_in_week handled wk ts) <= cnt) ->
    (forall k, wk < k -> placed_in_week handled k ts = 0%nat) ->
    forall k, k < 8 ->
      Z.of_nat (placed_in_week (rev (map id incomplete) ++ handled) k
                  (spread tasks_per_week incomplete ts wk cnt))
      <= tasks_per_week.
Proof.
  induction incomplete as [|task more IH];
    intros ts wk cnt handled N Ninc Hsub Hfresh Hwk Hcnt Hfull Hall Hrun
           Hlater k Hk.
  - now apply Hall.
  - cbn [spread].
    destruct (assign_first task.(id) tasks_per_week wk cnt ts)
      as [[ts1 w1] c1] eqn:A.
    assert (Hin : In task.(id) (map id ts)) by (apply Hsub; now left).
    assert (Hf : ~ In task.(id) handled) by (apply Hfresh; now left).
    destruct (@assign_first_count task.(id) tasks_per_week handled ts
                wk cnt ts1 w1 c1 N Hin Hf A) as [Hw1 [Hc1 [Hids Hcount]]].
    cbn [map rev]. rewrite <- app_assoc. cbn [app].
    cbn [map] in Ninc. apply NoDup_cons_iff in Ninc as [Ntask Nmore].
    unfold next_week in Hw1. unfold next_count in Hc1.
    apply IH; auto.
    + unfold unique_ids. now rewrite Hids.
    + intros i Hi. rewrite Hids. apply Hsub. now right.
    + intros i Hi [E|Hh]; [subst i; contradiction|].
      apply (Hfresh i); [now right | exact Hh].
    + destruct (Z.geb_spec cnt tasks_per_week), (Z.ltb_spec wk 8);
        simpl in Hw1; lia.
    + destruct (Z.geb_spec cnt tasks_per_week), (Z.ltb_spec wk 8);
        simpl in Hc1; lia.
    + destruct (Z.geb_spec cnt tasks_per_week), (Z.ltb_spec wk 8);
        simpl in Hw1, Hc1; lia.
    + intros k' Hk'. rewrite (Hcount k').
      pose proof (Hall k' Hk') as Pk. pose proof (Hlater k') as Lk.
      destruct (Z.geb_spec cnt tasks_per_week), (Z.ltb_spec wk 8);
        simpl in Hw1, Hc1; subst w1;
        destruct (Z.eqb_spec (wk + 1) k'); destruct (Z.eqb_spec wk k');
        try subst k'; try lia;
        try (rewrite Lk by lia; simpl; lia);
        try (specialize (Hrun ltac:(lia)); lia).
    + intros Hw8. rewrite (Hcount w1). rewrite Z.eqb_refl.
      pose proof (Hlater w1) as Lk.
      destruct (Z.geb_spec cnt tasks_per_week), (Z.ltb_spec wk 8);
        simpl in Hw1, Hc1; subst w1;
        try (rewrite Lk by lia; simpl; lia);
        try (specialize (Hrun ltac:(lia)); lia).
    + intros k' Hk'. rewrite (Hcount k').
      assert (Hne : (w1 =? k') = false).
      { apply Z.eqb_neq. lia. }
      rewrite Hne, Nat.add_0_r. apply Hlater.
      destruct (Z.geb_spec cnt tasks_per_week), (Z.ltb_spec wk 8);
        simpl in Hw1; lia.
Qed.

End Capacity.

Lemma placed_in_week_nil (k : Z) (ts : list Task) :
  placed_in_week [] k ts = 0%nat.
Proof.
  unfold placed_in_week. induction ts as [|t ts IH]; [reflexivity|].
  exact IH.
Qed.

Lemma existsb_id_true (i : string) (l : list string) :
  In i l -> existsb (String.eqb i) l = true.
Proof.
  intros H. apply existsb_exists. exists i. split; [exact H|].
  apply String.eqb_refl.
Qed.

Lemma pull_one (cw : Z) (t : Task) :
  let t1 := if is_overdue cw t then set_week t cw else t in
  t1.(completed) = t.(completed)
  /\ is_pending cw t1 = negb t.(completed).
Proof.
  cbv zeta. unfold is_overdue, is_pending.
  destruct t.(completed) eqn:C; cbn [negb andb].
  - now rewrite C.
  - destruct (Z.ltb_spec t.(week) cw); cbn [set_week completed week];
      rewrite ?C; cbn [negb andb]; (split; [reflexivity|]);
      apply Z.geb_le; lia.
Qed.

Lemma pull_forward_pending (cw : Z) (ts : list Task) :
  filter (is_pending cw) (pull_forward cw ts)
  = filter (fun t => negb t.(completed)) (pull_forward cw ts)
  /\ List.length (filter (fun t => negb t.(completed)) (pull_forward cw ts))
     = pending_count ts.
Proof.
  unfold pending_count, pull_forward. split.
  - apply filter_ext_in. intros x Hx.
    apply in_map_iff in Hx as [t [<- _]].
    destruct (pull_one cw t) as [-> ->]. reflexivity.
  - induction ts as [|t ts IH]; [reflexivity|].
    cbn [map filter]. destruct (pull_one cw t) as [-> _].
    destruct (negb t.(completed)); cbn [List.length]; now rewrite IH.
Qed.

(** X24. With unique ids, a successful [auto_adjust] leaves in every week
    before week 8 at most [tasks_per_week] incomplete tasks, that is three,
    or the number of incomplete tasks divided by the weeks that remain when
    that is more; the tasks beyond that go to week 8. *)
Theorem auto_adjust_week_capacity (today : Z) (data data' : ProjectState)
    (r : AdjustResponse) (k : Z) :
  unique_ids data.(tasks) ->
  auto_adjust today data = (data', Ok r) ->
  k < 8 ->
  Z.of_nat (pending_in_week k data'.(tasks))
  <= Z.max 3 (Z.of_nat (pending_count data.(tasks))
              / (8 - current_week (today - data.(project_start)) + 1)).
Proof.
  intros N. unfold auto_adjust.
  set (cw := current_week (today - data.(project_start))).
  assert (Hcw : 1 <= cw <= 8) by apply current_week_range.
  set (ts1 := pull_forward cw data.(tasks)).
  assert (N1 : unique_ids ts1).
  { unfold unique_ids, ts1, pull_forward. rewrite map_map.
    erewrite map_ext; [exact N|].
    intros t. now destruct (is_overdue cw t). }
  destruct (pull_forward_pending cw data.(tasks)) as [Pf Pl].
  fold ts1 in Pf, Pl.
  destruct (redistribute cw ts1) as [final|e] eqn:R; [|discriminate].
  intros [= <- _] Hk. cbn [tasks set_tasks].
  unfold redistribute in R.
  set (incomplete := filter (is_pending cw) ts1) in *.
  assert (Hinc : forall t, In t incomplete <->
                           In t ts1 /\ t.(completed) = false).
  { intros t. rewrite Pf, filter_In. now rewrite negb_true_iff. }
  assert (Hlen : List.length incomplete = pending_count data.(tasks))
    by now rewrite Pf.
  rewrite <- Hlen.
  set (tpw := Z.max 3 (Z.of_nat (List.length incomplete) / (8 - cw + 1)))
    in *.
  assert (H3 : 3 <= tpw) by (unfold tpw; lia).
  destruct (_ && _) eqn:Go.
  - destruct (sort_incomplete incomplete) as [sorted|] eqn:S;
      cbn [bind] in R; [|discriminate].
    injection R as <-.
    pose proof (sort_incomplete_perm _ S) as P.
    assert (Hs : forall t, In t sorted <-> In t incomplete).
    { intros t. split; apply Permutation_in;
        [exact P | now apply Permutation_sym]. }
    assert (Ns : NoDup (map id sorted)).
    { apply Permutation_NoDup with (l := map id incomplete).
      - apply Permutation_map. now apply Permutation_sym.
      - apply (unique_ids_filter (is_pending cw) N1). }
    assert (Hw : cw <= cw <= 8) by lia.
    pose proof (@spread_capacity tpw H3 cw sorted ts1 cw 0 [] N1 Ns) as Cap.
    assert (Hmem : forall t1, In t1 ts1 ->
              negb t1.(completed)
              = existsb (String.eqb t1.(id)) (rev (map id sorted) ++ [])).
    { intros t1 Ht1. rewrite app_nil_r.
      destruct t1.(completed) eqn:C; cbn [negb]; symmetry.
      - apply existsb_id_false. intros Hin. apply in_rev in Hin.
        apply in_map_iff in Hin as [u [Eu Hu]].
        apply Hs, Hinc in Hu as [Hu Cu].
        rewrite (@in_unique_id ts1 u t1 N1 Hu Ht1 Eu) in Cu. congruence.
      - apply existsb_id_true. apply -> in_rev. apply in_map.
        apply Hs, Hinc. now split. }
    destruct (@spread_spec cw tpw sorted ts1 cw 0 Hw) as [F _].
    assert (E : pending_in_week k (spread tpw sorted ts1 cw 0)
                = placed_in_week (rev (map id sorted) ++ []) k
                    (spread tpw sorted ts1 cw 0)).
    { unfold pending_in_week, placed_in_week. f_equal.
      apply filter_ext_in. intros t' Ht'.
      destruct (Forall2_in_right t' F Ht') as [t1 [Ht1 Rel]].
      assert (Same : t'.(id) = t1.(id) /\ t'.(completed) = t1.(completed))
        by (destruct Rel as [->|[w [_ ->]]]; split; reflexivity).
      destruct Same as [-> ->]. now rewrite (Hmem t1 Ht1). }
    rewrite E. apply Cap; auto; try lia.
    + intros i Hi. apply in_map_iff in Hi as [u [<- Hu]].
      apply in_map. now apply Hs, Hinc in Hu as [Hu _].
    + intros k' _. rewrite placed_in_week_nil. lia.
    + intros _. rewrite placed_in_week_nil. lia.
    + intros k' _. apply placed_in_week_nil.
  - injection R as <-.
    assert (Einc : incomplete = []).
    { destruct incomplete as [|x xs]; [reflexivity|]. exfalso.
      apply andb_false_iff in Go as [Go|Go]; revert Go.
      - destruct (Z.gtb_spec (8 - cw + 1) 0); [discriminate | lia].
      - cbn [List.length].
        destruct (Z.gtb_spec (Z.of_nat (S (List.length xs))) 0);
          [discriminate | lia]. }
    assert (E : pending_in_week k ts1 = 0%nat).
    { unfold pending_in_week.
      remember (filter (fun t => negb t.(completed) && (t.(week) =? k)) ts1)
        as l eqn:Fl.
      destruct l as [|t l]; [reflexivity|]. exfalso.
      assert (Ht : In t (filter (fun t => negb t.(completed)
                                          && (t.(week) =? k)) ts1))
        by (rewrite <- Fl; now left).
      apply filter_In in Ht as [Ht C].
      apply andb_true_iff in C as [C _]. apply negb_true_iff in C.
      assert (Hi : In t incomplete) by (apply Hinc; now split).
      now rewrite Einc in Hi. }
    rewrite E. lia.
Qed.

Lemma auto_adjust_week_capacity_witness :
  Z.of_nat
    (pending_in_week 3
       [demo_task "a" 3 false; demo_task "b" 3 false; demo_task "c" 3 false;
        demo_task "d" 4 false; demo_task "e" 4 false])
  <= Z.max 3 (Z.of_nat (pending_count five_store.(tasks))
              / (8 - current_week (739635 - five_store.(project_start)) + 1)).
Proof.
  apply (@auto_adjust_week_capacity 739635 five_store
           (mkState 739621 739680
              [demo_task "a" 3 false; demo_task "b" 3 false;
               demo_task "c" 3 false; demo_task "d" 4 false;
               demo_task "e" 4 false] [] [] [])
           (mkAdjustResponse "adjusted" 3
              (mkState 739621 739680
                 [demo_task "a" 3 false; demo_task "b" 3 false;
                  demo_task "c" 3 false; demo_task "d" 4 false;
                  demo_task "e" 4 false] [] [] []))
           3).
  - apply distinct_NoDup. reflexivity.
  - reflexivity.
  - lia.
Defined.

(** ** Replies as a whole *)

(** X25. A reply whose decoded updates are all well formed, and whose
    other blocks [json.loads] refused with [JSONDecodeError], never makes
    the loop raise, whatever the tasks are and however many such blocks
    there are. *)
Theorem well_formed_batch_succeeds (clock : nat -> instant) (cw : Z)
    (candidates : list (string * result json)) (st : Run) :
  (forall u, In u (decoded_updates candidates) -> well_formed u = true) ->
  (forall m e, In (m, Raise e) candidates -> e = JSONDecodeError) ->
  exists st', run_updates clock cw candidates st = Ok st'.
Proof.
  revert st. induction candidates as [|[m [u|e]] more IH]; intros st H D;
    cbn [run_updates].
  - eauto.
  - rewrite step_decoded.
    destruct (@well_formed_applies clock cw u (recorded u st))
      as [st1 [A _]]; [apply H; now left|].
    rewrite A. cbn [bind]. apply IH.
    + intros u' Hu'. apply H. now right.
    + intros m' e' Hin. apply (D m'). now right.
  - rewrite (D m e (or_introl eq_refl)). unfold step. cbn [snd bind].
    apply IH; [exact H|]. intros m' e' Hin. apply (D m'). now right.
Qed.

Lemma well_formed_batch_succeeds_witness :
  exists st',
    run_updates demo_clock 1
      [("m", Ok (JDict (move_a_to (JStr "3"))));
       ("{oops", Raise JSONDecodeError);
       ("x", Ok (JDict [("action", JStr "archive")]))]
      (demo_run [demo_task "a" 1 false]) = Ok st'.
Proof.
  apply (@well_formed_batch_succeeds demo_clock 1
           [("m", Ok (JDict (move_a_to (JStr "3"))));
            ("{oops", Raise JSONDecodeError);
            ("x", Ok (JDict [("action", JStr "archive")]))]
           (demo_run [demo_task "a" 1 false])).
  - simpl. intros u [<-|[<-|[]]]; reflexivity.
  - simpl. intros m e [E|[E|[E|[]]]]; try discriminate E.
    now injection E as _ <-.
Defined.

Lemma int_raises (v : json) (e : exn) :
  int v = Raise e -> conversion_error e.
Proof.
  unfold conversion_error.
  destruct v as [| | |[q|n|]|s|l|items]; simpl; try discriminate;
    try (intros [= <-]; tauto).
  destruct (int_of_string s); [discriminate|]. intros [= <-]. tauto.
Qed.

Lemma move_loop_raises (tid nw : json) (ts : list Task) (e : exn) :
  move_loop tid nw ts = Raise e -> conversion_error e.
Proof.
  induction ts as [|t rest IH]; simpl; [discriminate|].
  destruct (eq_str tid t.(id)).
  - destruct (int nw) as [z|e'] eqn:I; simpl; [discriminate|].
    intros [= <-]. exact (int_raises _ I).
  - destruct (move_loop tid nw rest) as [r|e']; simpl; [discriminate|].
    intros [= <-]. now apply IH.
Qed.

(** X26. An exception that leaves the loop is never a [JSONDecodeError].
    It is one that [json.loads] raised for a block ([ValueError],
    [RecursionError]), or one of [get] on a decoded value that is not an
    object or of [int] on a week: [AttributeError], [TypeError],
    [ValueError], [OverflowError]. *)
Theorem run_updates_raises_only_conversions (clock : nat -> instant) (cw : Z)
    (candidates : list (string * result json)) (st : Run) (e : exn) :
  run_updates clock cw candidates st = Raise e ->
  e <> JSONDecodeError
  /\ (conversion_error e \/ exists m, In (m, Raise e) candidates).
Proof.
  assert (C : forall x, conversion_error x -> x <> JSONDecodeError)
    by (intros x [->|[->|[->| ->]]]; discriminate).
  revert st. induction candidates as [|[m [u|e0]] more IH]; intros st;
    cbn [run_updates]; [discriminate| |].
  - rewrite step_decoded.
    destruct (apply_update clock cw u (recorded u st)) as [st1|e1] eqn:A;
      cbn [bind].
    { intros R. destruct (IH _ R) as [Hn [Hc|[m' Hm']]].
      - split; [exact Hn | now left].
      - split; [exact Hn|]. right. exists m'. now right. }
    intros [= <-].
    assert (E : conversion_error e1); [|split; [now apply C | now left]].
    revert A. generalize (recorded u st). intros s.
    destruct u as [| | | | |l|items];
      try (intros [= <-]; unfold conversion_error; tauto).
    destruct (known_action (action_of items)) eqn:K.
    + apply known_action_cases in K as [K|[K|[K|K]]].
      * rewrite (apply_move clock cw items s K). cbv zeta.
        destruct (_ && _); [|discriminate].
        destruct (move_loop _ _ _) as [[ts|]|e'] eqn:L; cbn [bind];
          try discriminate.
        intros [= <-]. exact (move_loop_raises _ _ _ L).
      * rewrite (apply_complete clock cw items s K). cbv zeta.
        destruct (truthy _); [|discriminate].
        destruct (complete_loop _ _); discriminate.
      * rewrite (apply_add clock cw items s K).
        destruct (int _) as [z|e'] eqn:I; cbn [bind]; [discriminate|].
        intros [= <-]. exact (int_raises _ I).
      * rewrite (apply_delete clock cw items s K). cbv zeta.
        destruct (truthy _); discriminate.
    + rewrite apply_unknown by exact K. discriminate.
  - unfold step. cbn [snd fst].
    destruct e0; cbn [bind];
      try (intros [= <-]; split; [discriminate|];
           right; exists m; now left).
    intros R. destruct (IH _ R) as [Hn [Hc|[m' Hm']]].
    + split; [exact Hn | now left].
    + split; [exact Hn|]. right. exists m'. now right.
Qed.

Lemma run_updates_raises_only_conversions_witness :
  run_updates demo_clock 1
    [("{oops", Raise JSONDecodeError);
     ("<nested too deep>", Raise RecursionError);
     ("c", Ok (JDict complete_a))]
    (demo_run [demo_task "a" 1 false]) = Raise RecursionError
  /\ RecursionError <> JSONDecodeError
  /\ (conversion_error RecursionError
      \/ exists m,
           In (m, Raise RecursionError)
              [("{oops", Raise JSONDecodeError);
               ("<nested too deep>", Raise RecursionError);
               ("c", Ok (JDict complete_a))]).
Proof.
  split; [reflexivity|].
  apply (@run_updates_raises_only_conversions demo_clock 1
           [("{oops", Raise JSONDecodeError);
            ("<nested too deep>", Raise RecursionError);
            ("c", Ok (JDict complete_a))]
           (demo_run [demo_task "a" 1 false]) RecursionError).
  reflexivity.
Defined.

Section ReplyFacts.

Variable json_loads : string -> result json.
Variable exn_text : exn -> string.
Variable render_context : Z -> ProjectState -> json -> string.

(** X27. A reply in which no closing marker occurs changes no task: the
    store gets the two chat turns and nothing else, and the response shows
    the reply, stripped, with no update and [error] false. *)
Theorem chat_without_blocks (w : World) (items : list (string * json))
    (data : ProjectState) (k text : string) :
  resolve_api_key w = Ok (Some k) ->
  String.eqb k "" = false ->
  (forall msgs, w.(ask) k msgs = Ok text) ->
  no_fence text = true ->
  chat json_loads exn_text render_context w (JDict items) data
  = (set_chat_history data
       (data.(chat_history)
        ++ [mkTurn "user" (field items "message" (JStr ""))
                   (w.(clock) 1%nat);
            mkTurn "assistant" (JStr text) (w.(clock) 2%nat)]),
     Ok (mkChatResponse (strip text) [] false)).
Proof.
  intros Hk Hne Hask Hnf.
  rewrite (@chat_after_reply json_loads exn_text render_context w items data
             k text Hk Hne Hask).
  cbv zeta. unfold process_reply.
  destruct (@never_matches_scan text (@never_matches_no_fence text Hnf))
    as [F S].
  fold (findall text) in F. fold (sub_blocks text) in S.
  rewrite F, S. cbn [map run_updates cur_tasks task_updates].
  now rewrite set_tasks_same.
Qed.

End ReplyFacts.

Lemma chat_without_blocks_witness :
  chat toy_loads (fun _ => "") (fun _ _ _ => "context")
       (answering_world " Keep `week` as it is. ")
       (JDict [("message", JStr "anything to move?")])
       (demo_store [demo_task "a" 1 false])
  = (set_chat_history (demo_store [demo_task "a" 1 false])
       ([] ++ [mkTurn "user" (JStr "anything to move?") (demo_clock 1%nat);
               mkTurn "assistant" (JStr " Keep `week` as it is. ")
                      (demo_clock 2%nat)]),
     Ok (mkChatResponse (strip " Keep `week` as it is. ") [] false)).
Proof.
  apply (@chat_without_blocks toy_loads (fun _ => "")
           (fun _ _ _ => "context")
           (answering_world " Keep `week` as it is. ")
           [("message", JStr "anything to move?")]
           (demo_store [demo_task "a" 1 false]) "sk-test"
           " Keep `week` as it is. ");
    reflexivity.
Defined.

(* ================================================================== *)
(** ** Scenarios *)
(* ================================================================== *)

(** A [move] of an existing task to week 2 is applied and printed. *)
Example scenario_move_is_applied :
  apply_update demo_clock 1 (JDict (move_a_to (JInt 2)))
    (demo_run [demo_task "a" 1 false])
  = Ok (mkRun [demo_task "a" 2 false] [] [Moved (JStr "a") (JInt 2)] 3%nat).
Proof. reflexivity. Qed.

(** In week 3, an incomplete task of week 1 is pulled to week 3. *)
Example scenario_overdue_is_pulled :
  (fst (auto_adjust 739635
          (mkState 739621 739680 [demo_task "a" 1 false] [] [] []))).(tasks)
  = [demo_task "a" 3 false].
Proof. reflexivity. Qed.

(** Five incomplete tasks, three per week: the fourth and the fifth go to
    the next week. *)
Example scenario_spread :
  map week
    (fst (auto_adjust 739635
            (mkState 739621 739680
               [demo_task "a" 1 false; demo_task "b" 2 false;
                demo_task "c" 3 false; demo_task "d" 3 false;
                demo_task "e" 8 false] [] [] []))).(tasks)
  = [3; 3; 3; 4; 4].
Proof. reflexivity. Qed.

(** An added task can be completed by a later update of the same reply
    when the reply names the id the clock will give. *)
Example scenario_add_then_complete :
  option_map (fun st => map completed st.(cur_tasks))
    (match run_updates demo_clock 1
             [("a", Ok (JDict (add_titled "first")));
              ("c", Ok (JDict [("action", JStr "complete");
                                 ("task_id", JStr "task-1768600000")]))]
             (demo_run []) with
     | Ok st => Some st
     | Raise _ => None
     end)
  = Some [true].
Proof. reflexivity. Qed.

(** The groups of a reply, and the reply without its blocks. *)
Example scenario_findall :
  findall ("Sure." ++ block "<move a to 2>" ++ " Done.")
  = ["<move a to 2>"]
  /\ strip (sub_blocks ("Sure." ++ block "<move a to 2>" ++ " Done. "))
     = "Sure. Done.".
Proof. split; reflexivity. Qed.
